(** * Instant-tracking AR demo (src/index.ts): placement state and frame loop

    A shallow embedding of the page script [src/index.ts].  The script is a
    sequence of calls into collaborators (three.js, the Zappar SDK, the DOM,
    the host's scheduling primitives) followed by a handful of callbacks the
    host runs later: the frame callback [render], the click handler of the
    placement control, the two completion callbacks of the model load, the
    resize listener and the continuation of the permission request.

    The embedding keeps an explicit [World]:
    - the DOM elements the script touches, as a store indexed by handle;
    - the children of the anchor group, as Object3D trees;
    - the script's own variables ([hasPlaced], [placeButton]);
    - the callbacks registered with the host;
    - the chronological [log] of calls made to collaborators whose effect
      the script does not own (tracking, environment map, drawing, dialogs).

    Statements run in a state-and-exception monad [M]; a collaborator call
    may throw, as decided by the environment [Env]. *)

From Stdlib Require Import ZArith QArith Reals String List Bool Lia.
From stdpp Require Import base option list.
Import ListNotations.

Set Warnings "-register-all".

Local Open Scope Z_scope.
Local Open Scope string_scope.
Local Open Scope list_scope.

(** ** JavaScript numbers used for rotations and scales

    The script builds the values [Math.PI / 2.5], [-Math.PI / 2] and
    [s * 1.2].  They are kept as the expressions the script writes, with a
    reading in the real numbers. *)

Inductive num : Type :=
| Lit (q : Q)
| MathPI
| NNeg (a : num)
| NMul (a b : num)
| NDiv (a b : num).

Fixpoint numR (n : num) : R :=
  match n with
  | Lit q => Q2R q
  | MathPI => PI
  | NNeg a => (- numR a)%R
  | NMul a b => (numR a * numR b)%R
  | NDiv a b => (numR a / numR b)%R
  end.

(** Degrees to radians, in the reals. *)
Definition degrees (d : R) : R := (d * (PI / 180))%R.

(** THREE.Vector3 / THREE.Euler: three numeric components. *)
Record Vec3 : Type := mkVec3 { vx : num; vy : num; vz : num }.

(** Vector3.multiplyScalar: [this.x *= s; this.y *= s; this.z *= s]. *)
Definition multiplyScalar (s : num) (v : Vec3) : Vec3 :=
  {| vx := NMul (vx v) s; vy := NMul (vy v) s; vz := NMul (vz v) s |}.

Definition set_y (y : num) (v : Vec3) : Vec3 :=
  {| vx := vx v; vy := y; vz := vz v |}.

Definition set_x (x : num) (v : Vec3) : Vec3 :=
  {| vx := x; vy := vy v; vz := vz v |}.

(** ** Scene graph nodes (THREE.Object3D) *)

(** A node's own properties, as far as the script reads or writes them.
    [oid] is the node's identity; [geometry] holds the width and height a
    plane geometry was built with. *)
Record Props : Type := mkProps {
  oid : nat;
  isMesh : bool;
  castShadow : bool;
  receiveShadow : bool;
  rotation : Vec3;
  scale : Vec3;
  geometry : option (Z * Z)
}.

Inductive Object3D : Type :=
| Node (props : Props) (children : list Object3D).

Definition props (o : Object3D) : Props := let 'Node p _ := o in p.
Definition children (o : Object3D) : list Object3D := let 'Node _ c := o in c.

Definition set_castShadow (b : bool) (p : Props) : Props :=
  {| oid := oid p; isMesh := isMesh p; castShadow := b;
     receiveShadow := receiveShadow p; rotation := rotation p;
     scale := scale p; geometry := geometry p |}.

Definition set_rotation (r : Vec3) (p : Props) : Props :=
  {| oid := oid p; isMesh := isMesh p; castShadow := castShadow p;
     receiveShadow := receiveShadow p; rotation := r;
     scale := scale p; geometry := geometry p |}.

Definition set_scale (s : Vec3) (p : Props) : Props :=
  {| oid := oid p; isMesh := isMesh p; castShadow := castShadow p;
     receiveShadow := receiveShadow p; rotation := rotation p;
     scale := s; geometry := geometry p |}.

(** Change the root's own properties, keeping its children. *)
Definition onRoot (f : Props -> Props) (o : Object3D) : Object3D :=
  Node (f (props o)) (children o).

(** Object3D.traverse(callback): the callback runs on the node itself, then
    on every descendant, depth first.  The callback of the script assigns
    properties of the visited node only. *)
Fixpoint traverse (callback : Props -> Props) (o : Object3D) : Object3D :=
  match o with
  | Node p cs => Node (callback p) (List.map (traverse callback) cs)
  end.

(** All nodes of a hierarchy, root first. *)
Fixpoint nodes (o : Object3D) : list Props :=
  match o with
  | Node p cs => p :: List.flat_map nodes cs
  end.

(** ** DOM elements *)

(** [styleDisplay] is the inline [style.display]; [cssDisplay] is what the
    page's stylesheet gives the element when no inline value is set;
    [isConnected] says whether the element is in the document. *)
Record Element : Type := mkElement {
  tagName : string;
  idAttr : option string;
  styleDisplay : option string;
  cssDisplay : string;
  isConnected : bool
}.

Definition set_styleDisplay (d : string) (e : Element) : Element :=
  {| tagName := tagName e; idAttr := idAttr e; styleDisplay := Some d;
     cssDisplay := cssDisplay e; isConnected := isConnected e |}.

Definition set_isConnected (b : bool) (e : Element) : Element :=
  {| tagName := tagName e; idAttr := idAttr e; styleDisplay := styleDisplay e;
     cssDisplay := cssDisplay e; isConnected := b |}.

Definition computedDisplay (e : Element) : string :=
  match styleDisplay e with
  | Some d => d
  | None => cssDisplay e
  end.

(** An element is on screen when it is in the document and not hidden. *)
Definition visible (e : Element) : bool :=
  isConnected e && negb (computedDisplay e =? "none").

Definition hasId (s : string) (e : Element) : bool :=
  isConnected e &&
  match idAttr e with
  | Some i => i =? s
  | None => false
  end.

Fixpoint findIndex {A : Type} (p : A -> bool) (l : list A) : option nat :=
  match l with
  | [] => None
  | x :: r => if p x then Some O else S <$> findIndex p r
  end.

(** document.getElementById over the element store. *)
Definition getElementById (s : string) (els : list Element) : option nat :=
  findIndex (hasId s) els.

(** document.createElement: a new element, not in the document. *)
Definition newElement (tag : string) : Element :=
  {| tagName := tag; idAttr := None; styleDisplay := None;
     cssDisplay := (if tag =? "div" then "block" else "inline");
     isConnected := false |}.

(** ** Calls to collaborators *)

Inductive Call : Type :=
| BrowserIncompatible
| BrowserIncompatibleUI
| NewLoadingManager
| NewWebGLRenderer
| NewScene
| NewCamera
| PermissionRequestUI
| CameraStart
| PermissionDeniedUI
| GlContextSet
| NewInstantWorldTracker
| NewInstantWorldAnchorGroup
| SceneAdd
| NewGLTFLoader
| GLTFLoaderLoad
| NewDirectionalLight
| NewAmbientLight
| NewCameraEnvironmentMap
| NewPlaneMesh
| SetAnchorPoseFromCameraOffset (x y z : Z)
| EnvironmentMapUpdate
| CameraUpdateFrame
| RendererRender
| RequestAnimationFrame
| ConsoleLog (msg : string).

(** What a statement can throw: [new Error(msg)], a reference to a binding
    that is not initialised yet, or the failure of a collaborator call. *)
Inductive Exn : Type :=
| Error (msg : string)
| ReferenceError (name : string)
| Failure (c : Call).

Inductive Outcome (A : Type) : Type :=
| Normal (a : A)
| Throw (e : Exn).
Arguments Normal {A} a.
Arguments Throw {A} e.

(** The environment the page runs in: the answer of the compatibility
    check, which collaborator calls throw (given the calls made so far), the
    elements of the page's document and the viewport at startup. *)
Record Env : Type := mkEnv {
  incompatible : bool;
  fails : list Call -> Call -> bool;
  document0 : list Element;
  innerWidth0 : Z;
  innerHeight0 : Z
}.

(** ** The world *)

Record World : Type := mkWorld {
  elements : list Element;
  canvas : option nat;
  placeButton : option nat;
  innerWidth : Z;
  innerHeight : Z;
  rendererSize : option (Z * Z);
  groupChildren : list Object3D;
  hasPlaced : bool;
  clickListeners : list nat;
  resizeListener : bool;
  loadPending : bool;
  permissionPending : bool;
  scheduled : nat;
  log : list Call;
  uncaught : list Exn
}.

Definition set_elements (v : list Element) (w : World) : World :=
  mkWorld v (canvas w) (placeButton w) (innerWidth w) (innerHeight w)
    (rendererSize w) (groupChildren w) (hasPlaced w) (clickListeners w)
    (resizeListener w) (loadPending w) (permissionPending w) (scheduled w)
    (log w) (uncaught w).

Definition set_canvas (v : option nat) (w : World) : World :=
  mkWorld (elements w) v (placeButton w) (innerWidth w) (innerHeight w)
    (rendererSize w) (groupChildren w) (hasPlaced w) (clickListeners w)
    (resizeListener w) (loadPending w) (permissionPending w) (scheduled w)
    (log w) (uncaught w).

Definition set_placeButton (v : option nat) (w : World) : World :=
  mkWorld (elements w) (canvas w) v (innerWidth w) (innerHeight w)
    (rendererSize w) (groupChildren w) (hasPlaced w) (clickListeners w)
    (resizeListener w) (loadPending w) (permissionPending w) (scheduled w)
    (log w) (uncaught w).

Definition set_viewport (W H : Z) (w : World) : World :=
  mkWorld (elements w) (canvas w) (placeButton w) W H
    (rendererSize w) (groupChildren w) (hasPlaced w) (clickListeners w)
    (resizeListener w) (loadPending w) (permissionPending w) (scheduled w)
    (log w) (uncaught w).

Definition set_rendererSize (v : option (Z * Z)) (w : World) : World :=
  mkWorld (elements w) (canvas w) (placeButton w) (innerWidth w) (innerHeight w)
    v (groupChildren w) (hasPlaced w) (clickListeners w)
    (resizeListener w) (loadPending w) (permissionPending w) (scheduled w)
    (log w) (uncaught w).

Definition set_groupChildren (v : list Object3D) (w : World) : World :=
  mkWorld (elements w) (canvas w) (placeButton w) (innerWidth w) (innerHeight w)
    (rendererSize w) v (hasPlaced w) (clickListeners w)
    (resizeListener w) (loadPending w) (permissionPending w) (scheduled w)
    (log w) (uncaught w).

Definition set_hasPlaced (v : bool) (w : World) : World :=
  mkWorld (elements w) (canvas w) (placeButton w) (innerWidth w) (innerHeight w)
    (rendererSize w) (groupChildren w) v (clickListeners w)
    (resizeListener w) (loadPending w) (permissionPending w) (scheduled w)
    (log w) (uncaught w).

Definition set_clickListeners (v : list nat) (w : World) : World :=
  mkWorld (elements w) (canvas w) (placeButton w) (innerWidth w) (innerHeight w)
    (rendererSize w) (groupChildren w) (hasPlaced w) v
    (resizeListener w) (loadPending w) (permissionPending w) (scheduled w)
    (log w) (uncaught w).

Definition set_resizeListener (v : bool) (w : World) : World :=
  mkWorld (elements w) (canvas w) (placeButton w) (innerWidth w) (innerHeight w)
    (rendererSize w) (groupChildren w) (hasPlaced w) (clickListeners w)
    v (loadPending w) (permissionPending w) (scheduled w)
    (log w) (uncaught w).

Definition set_loadPending (v : bool) (w : World) : World :=
  mkWorld (elements w) (canvas w) (placeButton w) (innerWidth w) (innerHeight w)
    (rendererSize w) (groupChildren w) (hasPlaced w) (clickListeners w)
    (resizeListener w) v (permissionPending w) (scheduled w)
    (log w) (uncaught w).

Definition set_permissionPending (v : bool) (w : World) : World :=
  mkWorld (elements w) (canvas w) (placeButton w) (innerWidth w) (innerHeight w)
    (rendererSize w) (groupChildren w) (hasPlaced w) (clickListeners w)
    (resizeListener w) (loadPending w) v (scheduled w)
    (log w) (uncaught w).

Definition set_scheduled (v : nat) (w : World) : World :=
  mkWorld (elements w) (canvas w) (placeButton w) (innerWidth w) (innerHeight w)
    (rendererSize w) (groupChildren w) (hasPlaced w) (clickListeners w)
    (resizeListener w) (loadPending w) (permissionPending w) v
    (log w) (uncaught w).

Definition set_log (v : list Call) (w : World) : World :=
  mkWorld (elements w) (canvas w) (placeButton w) (innerWidth w) (innerHeight w)
    (rendererSize w) (groupChildren w) (hasPlaced w) (clickListeners w)
    (resizeListener w) (loadPending w) (permissionPending w) (scheduled w)
    v (uncaught w).

Definition set_uncaught (v : list Exn) (w : World) : World :=
  mkWorld (elements w) (canvas w) (placeButton w) (innerWidth w) (innerHeight w)
    (rendererSize w) (groupChildren w) (hasPlaced w) (clickListeners w)
    (resizeListener w) (loadPending w) (permissionPending w) (scheduled w)
    (log w) v.

(** The world in which the script starts: the page's document, nothing
    registered, nothing called.  [hasPlaced] holds the value of its
    initialiser (line 147); no statement reads it earlier. *)
Definition initWorld (env : Env) : World :=
  {| elements := document0 env; canvas := None; placeButton := None;
     innerWidth := innerWidth0 env; innerHeight := innerHeight0 env;
     rendererSize := None; groupChildren := []; hasPlaced := false;
     clickListeners := []; resizeListener := false; loadPending := false;
     permissionPending := false; scheduled := O; log := []; uncaught := [] |}.

(** ** The statement monad *)

Definition M (A : Type) : Type := World -> World * Outcome A.

#[global] Instance M_ret : MRet M := fun A a w => (w, Normal a).

#[global] Instance M_bind : MBind M := fun A B k m w =>
  match m w with
  | (w', Normal a) => k a w'
  | (w', Throw e) => (w', Throw e)
  end.

Definition throw {A : Type} (e : Exn) : M A := fun w => (w, Throw e).
Definition gets {A : Type} (f : World -> A) : M A := fun w => (w, Normal (f w)).
Definition modify (f : World -> World) : M unit := fun w => (f w, Normal tt).

Definition record (c : Call) (w : World) : World := set_log (log w ++ [c]) w.

(** A call the host guarantees not to throw (console.log,
    requestAnimationFrame with a function argument, registering a
    listener): it is only recorded. *)
Definition host (c : Call) : M unit := modify (record c).

(** ** Scene objects built by the script *)

Definition zero3 : Vec3 := mkVec3 (Lit 0) (Lit 0) (Lit 0).
Definition one3 : Vec3 := mkVec3 (Lit 1) (Lit 1) (Lit 1).

Definition objectProps (i : nat) (mesh : bool) : Props :=
  {| oid := i; isMesh := mesh; castShadow := false; receiveShadow := false;
     rotation := zero3; scale := one3; geometry := None |}.

Definition dirLightId : nat := 1%nat.
Definition ambientLightId : nat := 2%nat.
Definition planeId : nat := 3%nat.

(** Lines 105-121.  Only [castShadow] of the light is tracked; its position,
    orientation and shadow-camera settings are read by the renderer alone
    and by no statement of the script. *)
Definition dirLight : Object3D :=
  Node (set_castShadow true (objectProps dirLightId false)) [].

(** Line 126. *)
Definition ambientLight : Object3D :=
  Node (objectProps ambientLightId false) [].

(** Lines 134-139: a mesh over a plane geometry of the viewport's size at
    that moment, receiving shadows, rotated by [-Math.PI / 2] about x. *)
Definition plane (W H : Z) : Object3D :=
  Node {| oid := planeId; isMesh := true; castShadow := false;
          receiveShadow := true;
          rotation := set_x (NDiv (NNeg MathPI) (Lit 2)) zero3;
          scale := one3; geometry := Some (W, H) |} [].

(** ** The script *)

Section Script.

Variable env : Env.

(** A collaborator call: recorded, and thrown out of when the environment
    says so. *)
Definition call (c : Call) : M unit := fun w =>
  (record c w, if fails env (log w) c then Throw (Failure c) else Normal tt).

(** Object3D.add on the anchor group: the object is pushed onto the
    group's children. *)
Definition groupAdd (o : Object3D) : M unit :=
  modify (fun w => set_groupChildren (groupChildren w ++ [o]) w).

(** Reading the const [placeButton] (line 40). *)
Definition readPlaceButton : M nat := fun w =>
  match placeButton w with
  | Some h => (w, Normal h)
  | None => (w, Throw (ReferenceError "placeButton"))
  end.

Definition updateElement (h : nat) (f : Element -> Element) : M unit :=
  modify (fun w => set_elements (alter f h (elements w)) w).

(** requestAnimationFrame(render): one more frame callback is pending. *)
Definition requestAnimationFrame : M unit :=
  host RequestAnimationFrame;;
  modify (fun w => set_scheduled (S (scheduled w)) w).

(** Lines 154-170. *)
Definition render : M unit :=
  placed ← gets hasPlaced;
  (if negb placed
   then call (SetAnchorPoseFromCameraOffset 0 0 (-2))
   else mret tt);;
  call EnvironmentMapUpdate;;
  call CameraUpdateFrame;;
  call RendererRender;;
  requestAnimationFrame.

(** Lines 148-151: the click listener of the placement control. *)
Definition clickHandler : M unit :=
  modify (set_hasPlaced true);;
  b ← readPlaceButton;
  updateElement b (set_isConnected false).

(** Line 95: the callback handed to traverse. *)
Definition shadowCallback (node : Props) : Props :=
  if isMesh node then set_castShadow true node else node.

(** Lines 86-99: the success callback of the model load; [gltfScene] is
    [gltf.scene], the root of the loaded hierarchy. *)
Definition loadSuccess (gltfScene : Object3D) : M unit :=
  b ← readPlaceButton;
  updateElement b (set_styleDisplay "block");;
  let s1 := onRoot (fun p => set_rotation
              (set_y (NDiv MathPI (Lit 2.5)) (rotation p)) p) gltfScene in
  let s2 := onRoot (fun p => set_scale
              (multiplyScalar (Lit 1.2) (scale p)) p) s1 in
  let s3 := traverse shadowCallback s2 in
  groupAdd s3.

(** Lines 100-102: the failure callback of the model load. *)
Definition loadError : M unit :=
  host (ConsoleLog "An error ocurred loading the GLTF model").

(** renderer.setSize(window.innerWidth, window.innerHeight), lines 43
    and 45.  The script leaves the renderer's pixel ratio at 1, so the
    drawing surface gets exactly the size it is given. *)
Definition setSizeToViewport : M unit :=
  modify (fun w => set_rendererSize (Some (innerWidth w, innerHeight w)) w).

(** Lines 44-46: the resize listener. *)
Definition resizeHandler : M unit := setSizeToViewport.

(** Lines 60-65: the continuation of the permission request. *)
Definition permissionThen (granted : bool) : M unit :=
  if granted then call CameraStart else call PermissionDeniedUI.

(** new THREE.WebGLRenderer: the renderer creates its canvas. *)
Definition newWebGLRenderer : M unit :=
  call NewWebGLRenderer;;
  modify (fun w =>
    set_canvas (Some (length (elements w)))
      (set_elements (elements w ++ [newElement "canvas"]) w)).

(** renderer.domElement. *)
Definition readCanvas : M nat := fun w =>
  match canvas w with
  | Some c => (w, Normal c)
  | None => (w, Throw (ReferenceError "renderer"))
  end.

(** Line 38: document.body.appendChild(renderer.domElement). *)
Definition appendCanvas : M unit :=
  c ← readCanvas;
  updateElement c (set_isConnected true).

(** Line 40: the element with id tap-to-place, or else a new div. *)
Definition findPlaceButton : M unit :=
  modify (fun w =>
    match getElementById "tap-to-place" (elements w) with
    | Some h => set_placeButton (Some h) w
    | None =>
        set_placeButton (Some (length (elements w)))
          (set_elements (elements w ++ [newElement "div"]) w)
    end).

(** Lines 17-173, in order.  Assignments that only configure an object of
    a collaborator (shadow map, encodings, tone mapping, pose mode, scene
    background and environment, the light's position and shadow camera)
    change nothing in the world and are left out. *)
Definition main : M unit :=
  call BrowserIncompatible;;
  (if incompatible env
   then call BrowserIncompatibleUI;; throw (Error "Unsupported browser")
   else mret tt);;
  call NewLoadingManager;;
  newWebGLRenderer;;
  call NewScene;;
  appendCanvas;;
  findPlaceButton;;
  setSizeToViewport;;
  modify (set_resizeListener true);;
  call NewCamera;;
  call PermissionRequestUI;;
  modify (set_permissionPending true);;
  call GlContextSet;;
  call NewInstantWorldTracker;;
  call NewInstantWorldAnchorGroup;;
  call SceneAdd;;
  call NewGLTFLoader;;
  call GLTFLoaderLoad;;
  modify (set_loadPending true);;
  call NewDirectionalLight;;
  groupAdd dirLight;;
  call NewAmbientLight;;
  groupAdd ambientLight;;
  call NewCameraEnvironmentMap;;
  W ← gets innerWidth;
  H ← gets innerHeight;
  call NewPlaneMesh;;
  groupAdd (plane W H);;
  modify (set_hasPlaced false);;
  b ← readPlaceButton;
  modify (fun w => set_clickListeners (clickListeners w ++ [b]) w);;
  render.

(** ** The host's event loop *)

(** What the host delivers to the page after the script has run. *)
Inductive Event : Type :=
| AnimationFrame
| Click (target : nat)
| Resize (W H : Z)
| LoadSucceeded (gltfScene : Object3D)
| LoadFailed
| PermissionResolved (granted : bool).

(** The host runs a callback to its end; what the callback throws is
    reported and the page goes on. *)
Definition settle (m : M unit) (w : World) : World :=
  match m w with
  | (w', Normal _) => w'
  | (w', Throw e) => set_uncaught (uncaught w' ++ [e]) w'
  end.

Fixpoint runFrameCallbacks (n : nat) (w : World) : World :=
  match n with
  | O => w
  | S k => runFrameCallbacks k (settle render w)
  end.

Definition isVisible (h : nat) (w : World) : bool :=
  match elements w !! h with
  | Some e => visible e
  | None => false
  end.

Definition listens (h : nat) (w : World) : bool :=
  existsb (Nat.eqb h) (clickListeners w).

(** - a display refresh runs the frame callbacks pending at that moment;
    - the user can tap only an element that is on screen;
    - a resize changes the viewport, then runs the listener;
    - the load completes at most once, one way or the other. *)
Definition dispatch (e : Event) (w : World) : World :=
  match e with
  | AnimationFrame => runFrameCallbacks (scheduled w) (set_scheduled O w)
  | Click h =>
      if isVisible h w && listens h w then settle clickHandler w else w
  | Resize W H =>
      let w1 := set_viewport W H w in
      if resizeListener w then settle resizeHandler w1 else w1
  | LoadSucceeded gltfScene =>
      if loadPending w
      then settle (loadSuccess gltfScene) (set_loadPending false w)
      else w
  | LoadFailed =>
      if loadPending w
      then settle loadError (set_loadPending false w)
      else w
  | PermissionResolved granted =>
      if permissionPending w
      then settle (permissionThen granted) (set_permissionPending false w)
      else w
  end.

Definition run (es : list Event) (w : World) : World :=
  fold_left (fun w e => dispatch e w) es w.

(** The page after the script has run to its end or to its first throw. *)
Definition boot : World := settle main (initWorld env).

End Script.

(** * Vocabulary of the properties *)

(** The camera offsets requested for the anchor, oldest first. *)
Fixpoint offsetRequests (l : list Call) : list (Z * Z * Z) :=
  match l with
  | [] => []
  | SetAnchorPoseFromCameraOffset x y z :: r => (x, y, z) :: offsetRequests r
  | _ :: r => offsetRequests r
  end.

(** The calls one frame delegates before it schedules the next frame. *)
Definition delegated (placed : bool) : list Call :=
  (if placed then [] else [SetAnchorPoseFromCameraOffset 0 0 (-2)]) ++
  [EnvironmentMapUpdate; CameraUpdateFrame; RendererRender].

(** The steps of a complete frame. *)
Definition frameSteps (placed : bool) : list Call :=
  delegated placed ++ [RequestAnimationFrame].

(** Going through [steps] after [history]: the calls attempted up to and
    including the first one that throws, if one does. *)
Fixpoint firstFailure (env : Env) (history steps : list Call)
  : option (list Call * Call) :=
  match steps with
  | [] => None
  | c :: r =>
      if fails env history c then Some ([c], c)
      else (fun '(done, f) => (c :: done, f)) <$>
             firstFailure env (history ++ [c]) r
  end.

(** A run of collaborator calls, one after the other. *)
Fixpoint callAll (env : Env) (steps : list Call) : M unit :=
  match steps with
  | [] => mret tt
  | c :: r => call env c;; callAll env r
  end.

(** An environment in which the environment-map update throws. *)
Definition envMapThrows : Env :=
  {| incompatible := false;
     fails := fun _ c =>
       match c with EnvironmentMapUpdate => true | _ => false end;
     document0 := []; innerWidth0 := 800; innerHeight0 := 600 |}.

(** [m] keeps [P]: whatever [m] does, also when it throws. *)
Definition preserves {A : Type} (P : World -> Prop) (m : M A) : Prop :=
  forall w, P w -> P (m w).1.

(** The page: everything in the world but the log, the pending frame
    callbacks and the reported failures. *)
Definition page (w : World) :=
  (elements w, canvas w, placeButton w, (innerWidth w, innerHeight w),
   rendererSize w, groupChildren w, hasPlaced w, clickListeners w,
   (resizeListener w, loadPending w, permissionPending w)).

(** Induction over a hierarchy: a property of a node may use the property
    of all its children. *)
Fixpoint Object3D_tree_ind (P : Object3D -> Prop)
  (step : forall p cs, Forall P cs -> P (Node p cs))
  (o : Object3D) : P o :=
  match o with
  | Node p cs =>
      step p cs
        ((fix all (l : list Object3D) : Forall P l :=
            match l with
            | [] => @List.Forall_nil _ P
            | c :: r =>
                @List.Forall_cons _ P c r (Object3D_tree_ind P step c) (all r)
            end) cs)
  end.

(** How often the node with identity [i] occurs in a list of children. *)
Definition occurrences (i : nat) (l : list Object3D) : nat :=
  length (List.filter (fun o => Nat.eqb (oid (props o)) i) l).

(** The model as the success callback leaves it. *)
Definition placedModel (gltfScene : Object3D) : Object3D :=
  traverse shadowCallback
    (onRoot (fun p => set_scale (multiplyScalar (Lit 1.2) (scale p)) p)
       (onRoot (fun p => set_rotation
                  (set_y (NDiv MathPI (Lit 2.5)) (rotation p)) p)
          gltfScene)).

(** A page on which nothing is registered and nothing is pending. *)
Definition inert (w : World) : Prop :=
  clickListeners w = [] /\ resizeListener w = false /\
  loadPending w = false /\ permissionPending w = false /\
  scheduled w = O.

(** No call throws and the browser is supported. *)
Definition quiet (env : Env) : Prop :=
  incompatible env = false /\ forall l c, fails env l c = false.

(** The calls of the script up to its first frame, in order. *)
Definition setupCalls : list Call :=
  [BrowserIncompatible; NewLoadingManager; NewWebGLRenderer; NewScene;
   NewCamera; PermissionRequestUI; GlContextSet; NewInstantWorldTracker;
   NewInstantWorldAnchorGroup; SceneAdd; NewGLTFLoader; GLTFLoaderLoad;
   NewDirectionalLight; NewAmbientLight; NewCameraEnvironmentMap;
   NewPlaneMesh].

(** The document once the canvas is in it. *)
Definition withCanvas (env : Env) : list Element :=
  alter (set_isConnected true) (length (document0 env))
    (document0 env ++ [newElement "canvas"]).

(** The page the script leaves behind when it runs to its end. *)
Definition started (env : Env) : World :=
  let els := withCanvas env in
  let found := getElementById "tap-to-place" els in
  let b := match found with Some h => h | None => length els end in
  {| elements :=
       match found with Some _ => els | None => els ++ [newElement "div"] end;
     canvas := Some (length (document0 env));
     placeButton := Some b;
     innerWidth := innerWidth0 env; innerHeight := innerHeight0 env;
     rendererSize := Some (innerWidth0 env, innerHeight0 env);
     groupChildren :=
       [dirLight; ambientLight; plane (innerWidth0 env) (innerHeight0 env)];
     hasPlaced := false;
     clickListeners := [b];
     resizeListener := true; loadPending := true; permissionPending := true;
     scheduled := 1%nat;
     log := setupCalls ++ frameSteps false;
     uncaught := [] |}.

(** The part of the world the placement control depends on. *)
Definition core (w : World) :=
  (elements w, canvas w, placeButton w, hasPlaced w, clickListeners w).

(** [b] is a div made by the script and not in the document. *)
Definition detachedDiv (env : Env) (w : World) (b : nat) : Prop :=
  canvas w <> Some b /\
  (length (document0 env) <= b)%nat /\
  exists e, elements w !! b = Some e /\ isConnected e = false /\
            tagName e = "div" /\ idAttr e = None.

(** What holds throughout the life of a page whose document has no element
    with id tap-to-place. *)
Definition fallbackInv (env : Env) (w : World) : Prop :=
  hasPlaced w = false /\
  getElementById "tap-to-place" (elements w) = None /\
  (length (document0 env) <= length (elements w))%nat /\
  (forall c, canvas w = Some c ->
             exists e, elements w !! c = Some e /\ idAttr e = None) /\
  (forall b, placeButton w = Some b \/ In b (clickListeners w) ->
             detachedDiv env w b).

(** The control as the page ships it: in the document, hidden by the
    stylesheet until the model has loaded. *)
Definition tapControl : Element :=
  {| tagName := "div"; idAttr := Some "tap-to-place"; styleDisplay := None;
     cssDisplay := "none"; isConnected := true |}.

(** No collaborator call throws. *)
Definition noFailure : list Call -> Call -> bool := fun _ _ => false.

(** A supported browser showing the shipped page in an 800 by 600 viewport. *)
Definition pageEnv : Env :=
  {| incompatible := false; fails := noFailure; document0 := [tapControl];
     innerWidth0 := 800; innerHeight0 := 600 |}.

(** The same, with a document that lacks the control. *)
Definition bareEnv : Env :=
  {| incompatible := false; fails := noFailure; document0 := [];
     innerWidth0 := 800; innerHeight0 := 600 |}.

(** An unsupported browser. *)
Definition oldBrowser : Env :=
  {| incompatible := true; fails := noFailure; document0 := [tapControl];
     innerWidth0 := 800; innerHeight0 := 600 |}.

(** A loaded model: a group holding a mesh and a group with a mesh. *)
Definition mug : Object3D :=
  Node (objectProps 10 false)
    [Node (objectProps 11 true) [];
     Node (objectProps 12 false) [Node (objectProps 13 true) []]].

(** The shipped page once the model has loaded. *)
Definition loadedPage : World := run pageEnv [LoadSucceeded mug] (boot pageEnv).

(** ** Vocabulary of the further properties *)

(** A statement run from a world in [P] ends in [Qn] when it returns and in
    [Qt] when it throws. *)
Definition triple {A : Type} (P : World -> Prop) (m : M A)
  (Qn Qt : World -> Prop) : Prop :=
  forall w, P w ->
    match m w with
    | (w', Normal _) => Qn w'
    | (w', Throw _) => Qt w'
    end.

(** [P] does not depend on what the host keeps beside the page: the
    pending flags of the load and of the permission request, the pending
    frame callbacks and the reported failures. *)
Definition hostBlind (P : World -> Prop) : Prop :=
  forall w,
    P w ->
    P (set_scheduled O w) /\ P (set_loadPending false w) /\
    P (set_permissionPending false w) /\
    forall u, P (set_uncaught u w).

(** How many calls of a log satisfy [p]. *)
Definition countCalls (p : Call -> bool) (l : list Call) : nat :=
  length (List.filter p l).

Definition isCameraStart (c : Call) : bool :=
  match c with CameraStart => true | _ => false end.

Definition isPermissionDeniedUI (c : Call) : bool :=
  match c with PermissionDeniedUI => true | _ => false end.

Definition isRendererRender (c : Call) : bool :=
  match c with RendererRender => true | _ => false end.

Definition isClick (e : Event) : bool :=
  match e with Click _ => true | _ => false end.

Definition isLoadSucceeded (e : Event) : bool :=
  match e with LoadSucceeded _ => true | _ => false end.

Definition isAnimationFrame (e : Event) : bool :=
  match e with AnimationFrame => true | _ => false end.

(** The display refreshes among a sequence of events. *)
Definition refreshes (es : list Event) : nat :=
  length (List.filter isAnimationFrame es).


(** With the resize listener registered, the renderer has the size of the
    viewport. *)
Definition sizeTracksViewport (w : World) : Prop :=
  resizeListener w = true ->
  rendererSize w = Some (innerWidth w, innerHeight w).

(** Every offset requested for the anchor is (0, 0, -2). *)
Definition offsetsConstant (w : World) : Prop :=
  Forall (fun o => o = (0, 0, -2)) (offsetRequests (log w)).

(** The calls the script makes with fixed arguments: the only offset it
    asks for is (0, 0, -2) and the only message it prints is that of the
    failed load. *)
Definition madeByScript (c : Call) : bool :=
  match c with
  | SetAnchorPoseFromCameraOffset x y z =>
      Z.eqb x 0 && Z.eqb y 0 && Z.eqb z (-2)
  | ConsoleLog msg => msg =? "An error ocurred loading the GLTF model"
  | _ => true
  end.

(** The frame loop is alive: one frame callback is pending, nothing has
    been reported as thrown, and the placement control is bound. *)
Definition running (w : World) : Prop :=
  scheduled w = 1%nat /\ uncaught w = [] /\
  exists b, placeButton w = Some b.

(** How often the page has started the camera, and how often it has shown
    the notice of a denied permission. *)
Definition cameraStarts (w : World) : nat := countCalls isCameraStart (log w).
Definition denialNotices (w : World) : nat :=
  countCalls isPermissionDeniedUI (log w).

(** The permission request has been answered, with [a] camera starts and
    [b] denial notices so far. *)
Definition answered (a b : nat) (w : World) : Prop :=
  permissionPending w = false /\ cameraStarts w = a /\ denialNotices w = b.

(** While the permission request is pending the page has neither started
    the camera nor shown the denial notice; it does at most one of the two,
    once. *)
Definition permissionInv (w : World) : Prop :=
  (permissionPending w = true -> (cameraStarts w + denialNotices w = 0)%nat) /\
  (cameraStarts w + denialNotices w <= 1)%nat.



(** Whatever can run a callback that reads the placement control has been
    set up after the control was bound. *)
Definition controlBound (w : World) : Prop :=
  loadPending w = true \/ clickListeners w <> [] ->
  exists b, placeButton w = Some b.






(** Once the placement has happened, the placement control is out of the
    document. *)
Definition placedMeansRemoved (w : World) : Prop :=
  hasPlaced w = true ->
  forall b e, placeButton w = Some b -> elements w !! b = Some e ->
              isConnected e = false.

(** A page whose control is on screen from the start. *)
Definition eagerEnv : Env :=
  {| incompatible := false; fails := noFailure;
     document0 :=
       [{| tagName := "div"; idAttr := Some "tap-to-place";
           styleDisplay := None; cssDisplay := "block";
           isConnected := true |}];
     innerWidth0 := 800; innerHeight0 := 600 |}.

(** * Properties *)

(** ** Reading the log *)

Lemma offsetRequests_app (l1 l2 : list Call) :
  offsetRequests (l1 ++ l2) = offsetRequests l1 ++ offsetRequests l2.
Proof.
  induction l1 as [|c l1 IH]; simpl; [reflexivity|].
  destruct c; simpl; rewrite ?IH; reflexivity.
Qed.

Ltac unfold_script :=
  unfold render, clickHandler, loadSuccess, loadError, resizeHandler,
    setSizeToViewport, permissionThen, requestAnimationFrame, groupAdd,
    updateElement, readPlaceButton, readCanvas, call, host, throw, gets,
    modify, record, mbind, M_bind, mret, M_ret in *.

Lemma set_log_id (w : World) : set_log (log w) w = w.
Proof. destruct w; reflexivity. Qed.

Lemma callAll_unfold (env : Env) (steps : list Call) :
  forall w,
    callAll env steps w =
    match firstFailure env (log w) steps with
    | None => (set_log (log w ++ steps) w, Normal tt)
    | Some (done, c) => (set_log (log w ++ done) w, Throw (Failure c))
    end.
Proof.
  induction steps as [|s steps IH]; intros w; simpl.
  - rewrite app_nil_r, set_log_id. reflexivity.
  - unfold mbind, M_bind, call at 1. simpl.
    destruct (fails env (log w) s); [reflexivity|].
    rewrite IH. unfold record. simpl.
    destruct (firstFailure env (log w ++ [s]) steps) as [[d f]|]; simpl;
      rewrite <- app_assoc; reflexivity.
Qed.

Lemma render_callAll (env : Env) (w : World) :
  render env w =
  (callAll env (delegated (hasPlaced w));; requestAnimationFrame) w.
Proof.
  unfold render, gets, delegated, mbind, M_bind. cbn beta iota.
  destruct (hasPlaced w); cbn [negb app callAll];
    unfold mbind, M_bind, mret, M_ret;
    repeat (match goal with
            | |- context [call env ?c ?v] =>
                destruct (call env c v) as [? [[]|?]]
            end; try reflexivity).
Qed.

(** One frame, in closed form: either every delegated call returns, the
    frame records all its steps and one more callback is pending; or the
    frame ends at the first call that throws. *)
Lemma render_unfold (env : Env) (w : World) :
  render env w =
  match firstFailure env (log w) (delegated (hasPlaced w)) with
  | None =>
      (set_scheduled (S (scheduled w))
         (set_log (log w ++ frameSteps (hasPlaced w)) w), Normal tt)
  | Some (done, c) => (set_log (log w ++ done) w, Throw (Failure c))
  end.
Proof.
  rewrite render_callAll. unfold mbind, M_bind. rewrite callAll_unfold.
  destruct (firstFailure env (log w) (delegated (hasPlaced w))) as [[d f]|];
    [reflexivity|].
  unfold frameSteps. rewrite app_assoc. reflexivity.
Qed.

Lemma firstFailure_Some (env : Env) (steps : list Call) :
  forall history done c,
    firstFailure env history steps = Some (done, c) ->
    exists pre post,
      steps = pre ++ c :: post /\ done = pre ++ [c] /\
      fails env (history ++ pre) c = true.
Proof.
  induction steps as [|s steps IH]; intros history done c H; simpl in H.
  - discriminate.
  - destruct (fails env history s) eqn:Hf.
    + injection H as <- <-. exists [], steps.
      rewrite app_nil_r. auto.
    + destruct (firstFailure env (history ++ [s]) steps) as [[d f]|] eqn:Hr;
        simpl in H; [|discriminate].
      injection H as <- <-.
      destruct (IH _ _ _ Hr) as (pre & post & -> & -> & Hc).
      exists (s :: pre), post. rewrite <- app_assoc in Hc. auto.
Qed.

Lemma firstFailure_None (env : Env) (steps : list Call) :
  forall history,
    firstFailure env history steps = None <->
    (forall pre c post,
        steps = pre ++ c :: post -> fails env (history ++ pre) c = false).
Proof.
  induction steps as [|s steps IH]; intros history; simpl.
  - split; [|reflexivity]. intros _ [|? ?] ? ? ?; discriminate.
  - split.
    + intros H pre c post E.
      destruct (fails env history s) eqn:Hf; [discriminate|].
      destruct (firstFailure env (history ++ [s]) steps) as [[d f]|] eqn:Hr;
        [discriminate|].
      destruct pre as [|p pre]; simpl in E; injection E as <- ->.
      * rewrite app_nil_r. exact Hf.
      * replace (history ++ s :: pre) with ((history ++ [s]) ++ pre)
          by (rewrite <- app_assoc; reflexivity).
        apply (proj1 (IH _) Hr pre c post). reflexivity.
    + intros H.
      assert (Hs : fails env history s = false).
      { rewrite <- (app_nil_r history). apply (H [] s steps). reflexivity. }
      rewrite Hs.
      assert (Hr : firstFailure env (history ++ [s]) steps = None).
      { apply IH. intros pre c post ->. rewrite <- app_assoc.
        apply (H (s :: pre) c post). reflexivity. }
      rewrite Hr. reflexivity.
Qed.

Lemma delegated_NoDup (placed : bool) : NoDup (frameSteps placed).
Proof.
  destruct placed; unfold frameSteps, delegated; simpl;
    repeat (apply NoDup_cons_2;
            [rewrite list_elem_of_In; simpl; intuition discriminate|]);
    apply NoDup_nil_2.
Qed.

Lemma NoDup_prefix {A : Type} (pre post : list A) :
  NoDup (pre ++ post) -> NoDup pre.
Proof. intros H. apply NoDup_app in H. tauto. Qed.

(** ** The frame loop *)

(** What a frame adds to the log is a non-empty initial part of its
    steps. *)
Lemma render_log_prefix (env : Env) (w : World) :
  exists k, (1 <= k)%nat /\
    log (render env w).1 = log w ++ take k (frameSteps (hasPlaced w)).
Proof.
  rewrite render_unfold.
  destruct (firstFailure env (log w) (delegated (hasPlaced w)))
    as [[done c]|] eqn:Hf; simpl.
  - apply firstFailure_Some in Hf as (pre & post & Hsteps & -> & _).
    exists (S (length pre)). split; [lia|].
    unfold frameSteps. rewrite Hsteps.
    replace (pre ++ c :: post) with ((pre ++ [c]) ++ post)
      by (rewrite <- app_assoc; reflexivity).
    rewrite <- app_assoc.
    rewrite take_app_length'; [reflexivity|].
    rewrite length_app. simpl. lia.
  - exists (length (frameSteps (hasPlaced w))). split.
    + destruct (hasPlaced w); simpl; lia.
    + rewrite firstn_all. reflexivity.
Qed.

Lemma no_offsets_after (k : nat) :
  offsetRequests
    (take k [EnvironmentMapUpdate; CameraUpdateFrame; RendererRender;
             RequestAnimationFrame]) = [].
Proof. do 4 (destruct k as [|k]; [reflexivity|]). destruct k; reflexivity. Qed.

Lemma render_offsets_placed (env : Env) (w : World) :
  hasPlaced w = true ->
  offsetRequests (log (render env w).1) = offsetRequests (log w).
Proof.
  intros Hp. destruct (render_log_prefix env w) as (k & _ & ->).
  rewrite Hp, offsetRequests_app. unfold frameSteps, delegated. simpl.
  rewrite no_offsets_after. apply app_nil_r.
Qed.

(** C1.  In a frame that starts with [hasPlaced] false, the first call of
    the frame asks for the anchor at the camera offset (0, 0, -2), and the
    frame asks for no other offset.  In a frame that starts with [hasPlaced]
    true the step is skipped: the offsets requested so far, and so the last
    one the tracker was given, are what they were before the frame. *)
Theorem render_offset_request (env : Env) (w : World) :
  let w' := (render env w).1 in
  if hasPlaced w
  then offsetRequests (log w') = offsetRequests (log w)
  else exists rest,
      log w' = log w ++ SetAnchorPoseFromCameraOffset 0 0 (-2) :: rest /\
      offsetRequests rest = [].
Proof.
  simpl. destruct (hasPlaced w) eqn:Hp.
  - apply render_offsets_placed. exact Hp.
  - destruct (render_log_prefix env w) as (k & Hk & ->). rewrite Hp.
    destruct k as [|k]; [lia|].
    unfold frameSteps, delegated. simpl. eexists. split; [reflexivity|].
    apply no_offsets_after.
Qed.

(** C3.  The calls of one frame are an initial part of the fixed sequence
    (offset request when not placed), environment-map update, camera
    updateFrame, render, requestAnimationFrame.  The frame returns when
    every delegated call has returned; it has then made all of them, in
    that order, and scheduling the next frame was its last step.  A frame
    schedules the next one only as the step after the render. *)
Theorem render_step_order (env : Env) (w : World) :
  let w' := (render env w).1 in
  let r := (render env w).2 in
  let steps :=
    (if hasPlaced w then [] else [SetAnchorPoseFromCameraOffset 0 0 (-2)]) ++
    [EnvironmentMapUpdate; CameraUpdateFrame; RendererRender;
     RequestAnimationFrame] in
  (exists k, log w' = log w ++ take k steps) /\
  (r = Normal tt <->
   firstFailure env (log w) (delegated (hasPlaced w)) = None) /\
  (r = Normal tt <-> log w' = log w ++ steps) /\
  (r = Normal tt <-> scheduled w' = S (scheduled w)).
Proof.
  assert (Hsteps :
    (if hasPlaced w then [] else [SetAnchorPoseFromCameraOffset 0 0 (-2)]) ++
    [EnvironmentMapUpdate; CameraUpdateFrame; RendererRender;
     RequestAnimationFrame] = frameSteps (hasPlaced w)).
  { destruct (hasPlaced w); reflexivity. }
  cbv zeta. rewrite Hsteps. clear Hsteps.
  split.
  { destruct (render_log_prefix env w) as (k & _ & E). exists k. exact E. }
  rewrite render_unfold.
  destruct (firstFailure env (log w) (delegated (hasPlaced w)))
    as [[done c]|] eqn:Hf; simpl.
  - apply firstFailure_Some in Hf as (pre & post & Hd & -> & _).
    split; [split; discriminate|].
    split; (split; [discriminate|]); intros E; [|lia].
    apply app_inv_head in E. apply (f_equal (@length Call)) in E.
    unfold frameSteps in E. rewrite Hd in E.
    rewrite !length_app in E. simpl in E. lia.
  - repeat split; reflexivity.
Qed.

(** C4, as stated, fails: when the environment-map update throws, the frame
    ends there, requestAnimationFrame is not reached and no frame callback
    is pending; display refreshes then run nothing. *)
Lemma render_failure_stops_loop :
  let w := initWorld envMapThrows in
  (render envMapThrows w).2 = Throw (Failure EnvironmentMapUpdate) /\
  scheduled (render envMapThrows w).1 = O /\
  ~ In RequestAnimationFrame (log (render envMapThrows w).1) /\
  run envMapThrows [AnimationFrame; AnimationFrame] (boot envMapThrows)
  = boot envMapThrows.
Proof.
  vm_compute. repeat split; try reflexivity.
  intros H. repeat (destruct H as [H|H]; [discriminate|]). exact H.
Qed.

(** C4, amended.  A frame makes each of its calls at most once.  When every
    delegated call returns, the frame schedules the next one.  When a
    delegated call throws, that call is the last of the frame, the failure
    leaves [render] for its caller, the next frame is not scheduled, and
    the host reports the failure. *)
Theorem render_failure_propagates (env : Env) (w : World) :
  let w' := (render env w).1 in
  exists steps,
    log w' = log w ++ steps /\ NoDup steps /\
    match (render env w).2 with
    | Normal _ =>
        steps = frameSteps (hasPlaced w) /\ scheduled w' = S (scheduled w) /\
        settle (render env) w = w'
    | Throw e =>
        exists c,
          e = Failure c /\ In c (delegated (hasPlaced w)) /\
          last steps = Some c /\
          fails env (log w ++ removelast steps) c = true /\
          ~ In RequestAnimationFrame steps /\
          scheduled w' = scheduled w /\
          uncaught (settle (render env) w) = uncaught w ++ [Failure c]
    end.
Proof.
  unfold settle. rewrite render_unfold.
  destruct (firstFailure env (log w) (delegated (hasPlaced w)))
    as [[done c]|] eqn:Hf; simpl.
  - apply firstFailure_Some in Hf as (pre & post & Hsteps & -> & Hc).
    exists (pre ++ [c]). split; [reflexivity|]. split.
    + pose proof (delegated_NoDup (hasPlaced w)) as Hd.
      unfold frameSteps in Hd. rewrite Hsteps in Hd.
      apply NoDup_prefix in Hd.
      replace (pre ++ c :: post) with ((pre ++ [c]) ++ post) in Hd
        by (rewrite <- app_assoc; reflexivity).
      apply NoDup_prefix in Hd. exact Hd.
    + exists c. split; [reflexivity|]. split.
      { rewrite Hsteps. apply in_or_app. right. left. reflexivity. }
      split; [apply last_snoc|]. split.
      { rewrite removelast_last. exact Hc. }
      split; [|split; reflexivity].
      intros Hin.
      assert (Hin' : In RequestAnimationFrame (delegated (hasPlaced w))).
      { rewrite Hsteps.
        apply in_app_or in Hin as [Hin|[<-|[]]]; apply in_or_app;
          [left; exact Hin | right; left; reflexivity]. }
      unfold delegated in Hin'. destruct (hasPlaced w); simpl in Hin';
        intuition discriminate.
  - exists (frameSteps (hasPlaced w)). split; [reflexivity|].
    split; [apply delegated_NoDup|]. auto.
Qed.

(** ** Invariants of statements *)

Section Preserves.

Variable env : Env.
Variable P : World -> Prop.

Lemma preserves_ret {A : Type} (a : A) : preserves P (mret a).
Proof. intros w H. exact H. Qed.

Lemma preserves_throw {A : Type} (e : Exn) : preserves P (@throw A e).
Proof. intros w H. exact H. Qed.

Lemma preserves_gets {A : Type} (f : World -> A) : preserves P (gets f).
Proof. intros w H. exact H. Qed.

Lemma preserves_bind {A B : Type} (m : M A) (k : A -> M B) :
  preserves P m -> (forall a, preserves P (k a)) -> preserves P (m ≫= k).
Proof.
  intros Hm Hk w H. unfold mbind, M_bind.
  specialize (Hm w H). destruct (m w) as [w1 [a|e]]; simpl in *.
  - apply Hk. exact Hm.
  - exact Hm.
Qed.

Lemma bind_normal {A B : Type} (m : M A) (k : A -> M B)
  (w w' : World) (a : A) :
  m w = (w', Normal a) -> (m ≫= k) w = k a w'.
Proof. intros H. unfold mbind, M_bind. rewrite H. reflexivity. Qed.

Lemma bind_throw {A B : Type} (m : M A) (k : A -> M B)
  (w w' : World) (e : Exn) :
  m w = (w', Throw e) -> (m ≫= k) w = (w', Throw e).
Proof. intros H. unfold mbind, M_bind. rewrite H. reflexivity. Qed.

Lemma bind_assoc {A B C : Type} (m : M A) (k1 : A -> M B) (k2 : B -> M C)
  (w : World) :
  ((m ≫= k1) ≫= k2) w = (m ≫= (fun a => k1 a ≫= k2)) w.
Proof.
  unfold mbind, M_bind. destruct (m w) as [w1 [a|e]]; reflexivity.
Qed.

Lemma preserves_modify (f : World -> World) :
  (forall w, P w -> P (f w)) -> preserves P (modify f).
Proof. intros Hf w H. apply Hf. exact H. Qed.

Lemma preserves_call (c : Call) :
  (forall w, P w -> P (record c w)) -> preserves P (call env c).
Proof. intros Hc w H. apply Hc. exact H. Qed.

Lemma preserves_host (c : Call) :
  (forall w, P w -> P (record c w)) -> preserves P (host c).
Proof. intros Hc w H. apply Hc. exact H. Qed.

Lemma preserves_if {A : Type} (b : bool) (m1 m2 : M A) :
  preserves P m1 -> preserves P m2 -> preserves P (if b then m1 else m2).
Proof. destruct b; auto. Qed.

Lemma preserves_settle (m : M unit) (w : World) :
  (forall w u, P w -> P (set_uncaught u w)) ->
  preserves P m -> P w -> P (settle m w).
Proof.
  intros Hu Hm H. unfold settle. specialize (Hm w H).
  destruct (m w) as [w1 [a|e]]; simpl in *; auto.
Qed.

Lemma preserves_readPlaceButton : preserves P readPlaceButton.
Proof.
  intros w H. unfold readPlaceButton. destruct (placeButton w); exact H.
Qed.

Lemma preserves_readCanvas : preserves P readCanvas.
Proof. intros w H. unfold readCanvas. destruct (canvas w); exact H. Qed.

Lemma preserves_readCanvas_bind {B : Type} (k : nat -> M B) :
  (forall c w, P w -> canvas w = Some c -> P (k c w).1) ->
  preserves P (readCanvas ≫= k).
Proof.
  intros Hk w H. unfold mbind, M_bind, readCanvas.
  destruct (canvas w) as [c|] eqn:Hc; [|exact H].
  apply Hk; assumption.
Qed.

Lemma preserves_readPlaceButton_bind {B : Type} (k : nat -> M B) :
  (forall b w, P w -> placeButton w = Some b -> P (k b w).1) ->
  preserves P (readPlaceButton ≫= k).
Proof.
  intros Hk w H. unfold mbind, M_bind, readPlaceButton.
  destruct (placeButton w) as [b|] eqn:Hb; [|exact H].
  apply Hk; assumption.
Qed.

End Preserves.

Ltac preserves_steps :=
  repeat first
    [ apply preserves_readCanvas_bind
    | apply preserves_readPlaceButton_bind
    | apply preserves_bind; [|intros ?]
    | apply preserves_if
    | apply preserves_ret
    | apply preserves_throw
    | apply preserves_gets
    | apply preserves_readPlaceButton
    | apply preserves_readCanvas
    | apply preserves_call
    | apply preserves_host
    | apply preserves_modify
    | progress unfold newWebGLRenderer, appendCanvas, findPlaceButton,
        requestAnimationFrame, groupAdd, updateElement, setSizeToViewport,
        resizeHandler, loadError, permissionThen, clickHandler, loadSuccess
    | progress cbv zeta ].

Lemma render_page (env : Env) (w : World) : page (render env w).1 = page w.
Proof.
  rewrite render_unfold.
  destruct (firstFailure env (log w) (delegated (hasPlaced w))) as [[d c]|];
    reflexivity.
Qed.

Lemma settle_render_page (env : Env) (w : World) :
  page (settle (render env) w) = page w.
Proof.
  unfold settle. pose proof (render_page env w) as H.
  destruct (render env w) as [w1 [a|e]]; exact H.
Qed.

Lemma runFrameCallbacks_page (env : Env) (n : nat) :
  forall w, page (runFrameCallbacks env n w) = page w.
Proof.
  induction n as [|n IH]; intros w; simpl; [reflexivity|].
  rewrite IH. apply settle_render_page.
Qed.

Lemma page_hasPlaced (w1 w2 : World) :
  page w1 = page w2 -> hasPlaced w1 = hasPlaced w2.
Proof. unfold page. intros H. congruence. Qed.

Lemma settle_render_offsets (env : Env) (w : World) :
  hasPlaced w = true ->
  offsetRequests (log (settle (render env) w)) = offsetRequests (log w).
Proof.
  intros Hp. pose proof (render_offsets_placed env w Hp) as H.
  unfold settle. destruct (render env w) as [w1 [a|e]]; exact H.
Qed.

(** ** The placement flag *)

Lemma runFrameCallbacks_offsets (env : Env) (n : nat) :
  forall w,
    hasPlaced w = true ->
    offsetRequests (log (runFrameCallbacks env n w)) = offsetRequests (log w).
Proof.
  induction n as [|n IH]; intros w Hp; simpl; [reflexivity|].
  rewrite IH.
  - apply settle_render_offsets. exact Hp.
  - rewrite (page_hasPlaced _ _ (settle_render_page env w)). exact Hp.
Qed.

(** The tap handler sets the flag, whether or not it then throws. *)
Lemma clickHandler_sets (w : World) :
  hasPlaced (clickHandler w).1 = true.
Proof.
  unfold_script. simpl. destruct (placeButton w); reflexivity.
Qed.

Lemma settle_hasPlaced (m : M unit) (w : World) :
  hasPlaced (settle m w) = hasPlaced (m w).1.
Proof. unfold settle. destruct (m w) as [w1 [a|e]]; reflexivity. Qed.

Lemma settle_log (m : M unit) (w : World) :
  log (settle m w) = log (m w).1.
Proof. unfold settle. destruct (m w) as [w1 [a|e]]; reflexivity. Qed.

(** Once the flag is set, no event clears it and no event adds an offset
    request. *)
Lemma dispatch_placed (env : Env) (e : Event) (w : World) :
  hasPlaced w = true ->
  hasPlaced (dispatch env e w) = true /\
  offsetRequests (log (dispatch env e w)) = offsetRequests (log w).
Proof.
  intros Hp. destruct e as [|h|W H|g| |granted]; simpl.
  - split.
    + rewrite (page_hasPlaced _ _ (runFrameCallbacks_page env _ _)). exact Hp.
    + rewrite runFrameCallbacks_offsets; [reflexivity | exact Hp].
  - destruct (isVisible h w && listens h w); [|auto].
    rewrite settle_hasPlaced, settle_log. split.
    + apply clickHandler_sets.
    + unfold_script. simpl. destruct (placeButton w); reflexivity.
  - destruct (resizeListener w); simpl; auto.
  - destruct (loadPending w); [|auto].
    rewrite settle_hasPlaced, settle_log. unfold_script. simpl.
    destruct (placeButton w); simpl; auto.
  - destruct (loadPending w); [|auto].
    rewrite settle_hasPlaced, settle_log. unfold_script. simpl.
    rewrite offsetRequests_app. simpl. rewrite app_nil_r. auto.
  - destruct (permissionPending w); [|auto].
    rewrite settle_hasPlaced, settle_log.
    destruct granted; unfold_script; simpl;
      rewrite offsetRequests_app; simpl; rewrite app_nil_r; auto.
Qed.

Lemma run_cons (env : Env) (e : Event) (es : list Event) (w : World) :
  run env (e :: es) w = run env es (dispatch env e w).
Proof. reflexivity. Qed.

Lemma run_app (env : Env) (es1 es2 : list Event) (w : World) :
  run env (es1 ++ es2) w = run env es2 (run env es1 w).
Proof. unfold run. apply fold_left_app. Qed.

Lemma run_placed (env : Env) (es : list Event) :
  forall w,
    hasPlaced w = true ->
    hasPlaced (run env es w) = true /\
    offsetRequests (log (run env es w)) = offsetRequests (log w).
Proof.
  induction es as [|e es IH]; intros w Hp; [auto|].
  rewrite run_cons.
  destruct (dispatch_placed env e w Hp) as [Hp' Ho].
  destruct (IH _ Hp') as [Hp'' Ho']. split; [exact Hp''|].
  rewrite Ho'. exact Ho.
Qed.

Lemma preserves_render (env : Env) (P : World -> Prop) :
  (forall w1 w2, page w1 = page w2 -> P w1 -> P w2) ->
  preserves P (render env).
Proof.
  intros HP w H. apply (HP w); [|exact H].
  symmetry. apply render_page.
Qed.

(** The script leaves the flag false. *)
Lemma main_unplaced (env : Env) :
  preserves (fun w => hasPlaced w = false) (main env).
Proof.
  unfold main. preserves_steps.
  all: try (intros w H; unfold record; simpl; first [exact H | reflexivity]).
  - intros c w H _. exact H.
  - intros w H. destruct (getElementById _ _); exact H.
  - intros b w H _. unfold mbind, M_bind, modify.
    rewrite (page_hasPlaced _ _ (render_page env _)). exact H.
Qed.

Lemma boot_unplaced (env : Env) : hasPlaced (boot env) = false.
Proof.
  unfold boot. apply (preserves_settle (fun w => hasPlaced w = false)).
  - intros w u H. exact H.
  - apply main_unplaced.
  - reflexivity.
Qed.

(** C2.  The flag is false when the script has run; the tap handler sets
    it; no event clears it.  After a tap on the control that carries the
    handler, whatever events follow, the flag stays set and the offsets
    requested for the anchor stay what they were: no further offset request
    is made. *)
Theorem placement_is_terminal (env : Env) :
  hasPlaced (initWorld env) = false /\
  hasPlaced (boot env) = false /\
  (forall w, hasPlaced (clickHandler w).1 = true) /\
  (forall e w, hasPlaced w = true -> hasPlaced (dispatch env e w) = true) /\
  (forall h w es,
      isVisible h w = true -> listens h w = true ->
      let w1 := dispatch env (Click h) w in
      hasPlaced w1 = true /\
      hasPlaced (run env es w1) = true /\
      offsetRequests (log (run env es w1)) = offsetRequests (log w1)).
Proof.
  split; [reflexivity|]. split; [apply boot_unplaced|].
  split; [apply clickHandler_sets|]. split.
  - intros e w Hp. apply (dispatch_placed env e w Hp).
  - intros h w es Hv Hl. simpl. rewrite Hv, Hl. simpl.
    assert (Hp : hasPlaced (settle clickHandler w) = true).
    { rewrite settle_hasPlaced. apply clickHandler_sets. }
    split; [exact Hp|]. apply run_placed. exact Hp.
Qed.

(** ** The load callbacks *)

(** traverse visits every node of the hierarchy once, in order. *)
Lemma nodes_traverse (f : Props -> Props) (o : Object3D) :
  nodes (traverse f o) = List.map f (nodes o).
Proof.
  induction o as [p cs IH] using Object3D_tree_ind. simpl. f_equal.
  induction IH as [|c r Hc _ IHr]; simpl; [reflexivity|].
  rewrite List.map_app, Hc, IHr. reflexivity.
Qed.

Lemma nodes_onRoot (f : Props -> Props) (o : Object3D) :
  nodes (onRoot f o) = f (props o) :: List.flat_map nodes (children o).
Proof. destruct o; reflexivity. Qed.

Lemma nodes_root (o : Object3D) :
  nodes o = props o :: List.flat_map nodes (children o).
Proof. destruct o; reflexivity. Qed.

Lemma loadSuccess_unfold (w : World) (b : nat) (gltfScene : Object3D) :
  placeButton w = Some b ->
  loadSuccess gltfScene w =
  (set_groupChildren (groupChildren w ++ [placedModel gltfScene])
     (set_elements (alter (set_styleDisplay "block") b (elements w)) w),
   Normal tt).
Proof. intros Hb. unfold_script. rewrite Hb. reflexivity. Qed.

Lemma shadowCallback_spec (n : Props) :
  isMesh (shadowCallback n) = isMesh n /\
  oid (shadowCallback n) = oid n /\
  rotation (shadowCallback n) = rotation n /\
  scale (shadowCallback n) = scale n /\
  (isMesh n = true -> castShadow (shadowCallback n) = true) /\
  (isMesh n = false -> shadowCallback n = n).
Proof.
  unfold shadowCallback. destruct (isMesh n) eqn:E; simpl; rewrite ?E;
    repeat split; auto; discriminate.
Qed.

Lemma seventy_two_degrees : numR (NDiv MathPI (Lit 2.5)) = degrees 72.
Proof. unfold degrees. simpl. unfold Q2R. simpl. field. Qed.

Lemma placedModel_props (gltfScene : Object3D) :
  props (placedModel gltfScene) =
  shadowCallback
    (set_scale (multiplyScalar (Lit 1.2) (scale (props gltfScene)))
       (set_rotation
          (set_y (NDiv MathPI (Lit 2.5)) (rotation (props gltfScene)))
          (props gltfScene))).
Proof. destruct gltfScene; reflexivity. Qed.

Lemma placedModel_nodes (gltfScene : Object3D) :
  nodes (placedModel gltfScene) =
  props (placedModel gltfScene) ::
  List.map shadowCallback (List.flat_map nodes (children gltfScene)).
Proof.
  rewrite placedModel_props. unfold placedModel.
  rewrite nodes_traverse. destruct gltfScene; reflexivity.
Qed.

Lemma occurrences_app (i : nat) (l1 l2 : list Object3D) :
  occurrences i (l1 ++ l2) = (occurrences i l1 + occurrences i l2)%nat.
Proof. unfold occurrences. rewrite List.filter_app, length_app. reflexivity. Qed.

Lemma occurrences_fresh (i : nat) (l : list Object3D) :
  ~ In i (List.map (fun o => oid (props o)) l) -> occurrences i l = O.
Proof.
  unfold occurrences. induction l as [|o l IH]; simpl; [reflexivity|].
  intros H. destruct (Nat.eqb_spec (oid (props o)) i) as [E|E].
  - exfalso. apply H. left. exact E.
  - apply IH. intros Hin. apply H. right. exact Hin.
Qed.

(** C5.  When the success callback fires (the placement control [b] being
    bound, as it is from line 40 on), it returns normally and:
    - the control's inline display is "block", so the control is on screen
      whenever it is in the document;
    - the root's rotation about y is [Math.PI / 2.5], which is 72 degrees;
    - the root's scale is its former scale times 1.2 on each axis;
    - the hierarchy keeps its nodes, every mesh node in it casts shadows,
      and a node that is not a mesh is left as it was below the root;
    - the root is pushed once onto the anchor group's children, and, being
      a new object, occurs there exactly once. *)
Theorem loadSuccess_effects
  (w : World) (b : nat) (e : Element) (gltfScene : Object3D) :
  placeButton w = Some b ->
  elements w !! b = Some e ->
  ~ In (oid (props gltfScene))
       (List.map (fun o => oid (props o)) (groupChildren w)) ->
  let w' := (loadSuccess gltfScene w).1 in
  let m := placedModel gltfScene in
  let s := scale (props gltfScene) in
  (loadSuccess gltfScene w).2 = Normal tt /\
  elements w' !! b = Some (set_styleDisplay "block" e) /\
  isVisible b w' = isConnected e /\
  rotation (props m) =
    set_y (NDiv MathPI (Lit 2.5)) (rotation (props gltfScene)) /\
  numR (vy (rotation (props m))) = degrees 72 /\
  scale (props m) = mkVec3 (NMul (vx s) (Lit 1.2)) (NMul (vy s) (Lit 1.2))
                           (NMul (vz s) (Lit 1.2)) /\
  (numR (vx (scale (props m))) = numR (vx s) * 1.2 /\
   numR (vy (scale (props m))) = numR (vy s) * 1.2 /\
   numR (vz (scale (props m))) = numR (vz s) * 1.2)%R /\
  List.map oid (nodes m) = List.map oid (nodes gltfScene) /\
  List.map isMesh (nodes m) = List.map isMesh (nodes gltfScene) /\
  Forall (fun n => isMesh n = true -> castShadow n = true) (nodes m) /\
  List.tl (nodes m) =
    List.map shadowCallback (List.tl (nodes gltfScene)) /\
  groupChildren w' = groupChildren w ++ [m] /\
  occurrences (oid (props gltfScene)) (groupChildren w') = 1%nat /\
  hasPlaced w' = hasPlaced w /\ log w' = log w.
Proof.
  intros Hb He Hfresh. cbv zeta.
  rewrite (loadSuccess_unfold w b gltfScene Hb).
  unfold set_groupChildren, set_elements.
  cbn [fst snd groupChildren elements hasPlaced log].
  pose proof (placedModel_props gltfScene) as Hp.
  pose proof (placedModel_nodes gltfScene) as Hn.
  set (m := placedModel gltfScene) in *.
  set (q := set_scale _ _) in Hp.
  destruct (shadowCallback_spec q) as (Hmesh & Hoid & Hrot & Hscale & Hcast & _).
  split; [reflexivity|]. split.
  { rewrite list_lookup_alter_eq, He. reflexivity. }
  split.
  { unfold isVisible. simpl. rewrite list_lookup_alter_eq, He. simpl.
    unfold visible. simpl. apply andb_true_r. }
  split; [rewrite Hp, Hrot; reflexivity|]. split.
  { rewrite Hp, Hrot. apply seventy_two_degrees. }
  split; [rewrite Hp, Hscale; reflexivity|]. split.
  { rewrite Hp, Hscale. simpl. unfold Q2R. simpl.
    repeat split; field. }
  assert (Hmap : forall (A : Type) (g : Props -> A),
             (forall n, g (shadowCallback n) = g n) ->
             g q = g (props gltfScene) ->
             List.map g (nodes m) = List.map g (nodes gltfScene)).
  { intros A g Hg Hq. rewrite Hn, (nodes_root gltfScene), Hp. simpl.
    rewrite Hg, Hq. f_equal. rewrite List.map_map.
    apply List.map_ext. exact Hg. }
  split.
  { apply Hmap; [|reflexivity]. intros n. apply shadowCallback_spec. }
  split.
  { apply Hmap; [|reflexivity]. intros n. apply shadowCallback_spec. }
  split.
  { unfold m, placedModel. rewrite nodes_traverse.
    apply Forall_forall. intros n Hin.
    apply list_elem_of_In, List.in_map_iff in Hin as (n0 & <- & _).
    destruct (shadowCallback_spec n0) as (Hm0 & _ & _ & _ & Hc0 & _).
    rewrite Hm0. exact Hc0. }
  split.
  { rewrite Hn, (nodes_root gltfScene). reflexivity. }
  split; [reflexivity|]. split; [|split; reflexivity].
  rewrite occurrences_app, (occurrences_fresh _ _ Hfresh).
  unfold occurrences. cbn [List.filter]. rewrite Hp, Hoid.
  change (oid q) with (oid (props gltfScene)).
  rewrite Nat.eqb_refl. reflexivity.
Qed.

(** C6.  The failure callback records one console message and returns
    normally; nothing else in the world changes.  So when the host delivers
    the failure, the anchor group's children and every element's visibility
    are what they were, the frame callback stays pending and nothing is
    reported as thrown: the page goes on without the model. *)
Theorem loadError_only_reports (env : Env) (w : World) :
  let msg := ConsoleLog "An error ocurred loading the GLTF model" in
  loadError w = (set_log (log w ++ [msg]) w, Normal tt) /\
  dispatch env LoadFailed w =
    (if loadPending w
     then set_log (log w ++ [msg]) (set_loadPending false w)
     else w) /\
  let w' := dispatch env LoadFailed w in
  groupChildren w' = groupChildren w /\
  elements w' = elements w /\
  (forall h, isVisible h w' = isVisible h w) /\
  placeButton w' = placeButton w /\
  hasPlaced w' = hasPlaced w /\
  scheduled w' = scheduled w /\
  uncaught w' = uncaught w.
Proof.
  cbv zeta. split; [reflexivity|]. split.
  - simpl. destruct (loadPending w); reflexivity.
  - simpl. destruct (loadPending w); repeat split; reflexivity.
Qed.

(** ** The tap handler *)

Lemma remove_twice (b : nat) (els : list Element) :
  alter (set_isConnected false) b (alter (set_isConnected false) b els)
  = alter (set_isConnected false) b els.
Proof.
  rewrite list_alter_alter_eq. apply list_alter_ext; [|reflexivity].
  intros e _. reflexivity.
Qed.

Lemma clickHandler_unfold (w : World) (b : nat) :
  placeButton w = Some b ->
  clickHandler w =
  (set_elements (alter (set_isConnected false) b (elements w))
     (set_hasPlaced true w), Normal tt).
Proof. intros Hb. unfold_script. simpl. rewrite Hb. reflexivity. Qed.

Lemma removed_not_visible (b : nat) (els : list Element) (w : World) :
  isVisible b (set_elements (alter (set_isConnected false) b els) w) = false.
Proof.
  unfold isVisible. simpl. rewrite list_lookup_alter_eq.
  destruct (els !! b); reflexivity.
Qed.

(** C7.  With the placement control bound (as it is whenever the handler
    is registered), the handler returns normally and sets the flag; run
    again on the world it produced, it returns normally and leaves that
    world exactly as it is.  Delivered through the host, a second tap on
    the control changes nothing either: the control is no longer on
    screen. *)
Theorem clickHandler_idempotent (env : Env) (w : World) (b : nat) :
  placeButton w = Some b ->
  let w1 := (clickHandler w).1 in
  (clickHandler w).2 = Normal tt /\
  hasPlaced w1 = true /\
  isVisible b w1 = false /\
  clickHandler w1 = (w1, Normal tt) /\
  dispatch env (Click b) (dispatch env (Click b) w)
  = dispatch env (Click b) w.
Proof.
  intros Hb. cbv zeta. rewrite (clickHandler_unfold w b Hb).
  cbn [fst snd]. split; [reflexivity|]. split; [reflexivity|].
  split; [apply removed_not_visible|]. split.
  - rewrite (clickHandler_unfold _ b) by exact Hb.
    destruct w. unfold set_elements, set_hasPlaced. simpl.
    rewrite remove_twice. reflexivity.
  - cbn [dispatch]. destruct (isVisible b w && listens b w) eqn:Hv.
    + unfold settle. rewrite (clickHandler_unfold w b Hb).
      rewrite removed_not_visible. reflexivity.
    + rewrite Hv. reflexivity.
Qed.

(** ** Startup *)

Lemma set_viewport_inert (W H : Z) (w : World) :
  inert w -> inert (set_viewport W H w).
Proof. intros H0. exact H0. Qed.

Lemma set_viewport_twice (W H W' H' : Z) (w : World) :
  set_viewport W H (set_viewport W' H' w) = set_viewport W H w.
Proof. reflexivity. Qed.

Lemma set_viewport_id (w : World) :
  set_viewport (innerWidth w) (innerHeight w) w = w.
Proof. destruct w; reflexivity. Qed.

(** On an inert page an event runs no code of the script. *)
Lemma dispatch_inert (env : Env) (e : Event) (w : World) :
  inert w ->
  exists W H, dispatch env e w = set_viewport W H w.
Proof.
  intros (Hc & Hr & Hl & Hp & Hs).
  destruct e as [|h|W H|g| |granted]; simpl;
    rewrite ?Hs, ?Hr, ?Hl, ?Hp; simpl;
    try (exists W, H; reflexivity);
    exists (innerWidth w), (innerHeight w); rewrite set_viewport_id;
    try reflexivity.
  - destruct w; simpl in *; subst; reflexivity.
  - unfold listens. rewrite Hc. simpl. rewrite andb_false_r. reflexivity.
Qed.

Lemma run_inert (env : Env) (es : list Event) :
  forall w, inert w -> exists W H, run env es w = set_viewport W H w.
Proof.
  induction es as [|e es IH]; intros w Hw.
  - exists (innerWidth w), (innerHeight w). rewrite set_viewport_id.
    reflexivity.
  - rewrite run_cons.
    destruct (dispatch_inert env e w Hw) as (W & H & ->).
    destruct (IH (set_viewport W H w) (set_viewport_inert W H w Hw))
      as (W' & H' & ->).
    exists W', H'. apply set_viewport_twice.
Qed.

(** C8.  When the compatibility check answers that the browser is not
    supported and the notice is shown, the script makes exactly two calls,
    the check and the notice, in that order, and then throws
    [Error "Unsupported browser"].  Nothing else of the script has run: no
    element is created, no listener or callback is registered, no frame is
    scheduled; and no later event runs any code of the script. *)
Theorem unsupported_browser_aborts (env : Env) :
  incompatible env = true ->
  fails env [] BrowserIncompatible = false ->
  fails env [BrowserIncompatible] BrowserIncompatibleUI = false ->
  let stopped :=
    set_log [BrowserIncompatible; BrowserIncompatibleUI] (initWorld env) in
  main env (initWorld env) = (stopped, Throw (Error "Unsupported browser")) /\
  boot env = set_uncaught [Error "Unsupported browser"] stopped /\
  forall es, exists W H, run env es (boot env) = set_viewport W H (boot env).
Proof.
  intros Hi Hc Hu. cbv zeta.
  assert (Hmain : main env (initWorld env) =
    (set_log [BrowserIncompatible; BrowserIncompatibleUI] (initWorld env),
     Throw (Error "Unsupported browser"))).
  { unfold main. rewrite Hi.
    rewrite (bind_normal _ _ (initWorld env)
               (record BrowserIncompatible (initWorld env)) tt)
      by (unfold call; simpl; rewrite Hc; reflexivity).
    apply bind_throw.
    rewrite (bind_normal _ _ _
               (record BrowserIncompatibleUI
                  (record BrowserIncompatible (initWorld env))) tt)
      by (unfold call; simpl; rewrite Hu; reflexivity).
    reflexivity. }
  split; [exact Hmain|].
  assert (Hboot : boot env =
    set_uncaught [Error "Unsupported browser"]
      (set_log [BrowserIncompatible; BrowserIncompatibleUI] (initWorld env))).
  { unfold boot, settle. rewrite Hmain. reflexivity. }
  split; [exact Hboot|].
  intros es. apply run_inert. rewrite Hboot.
  unfold inert. simpl. auto.
Qed.

(** ** Resizing *)

Lemma page_groupChildren (w1 w2 : World) :
  page w1 = page w2 -> groupChildren w1 = groupChildren w2.
Proof. unfold page. intros H. congruence. Qed.

Lemma settle_groupChildren (m : M unit) (w : World) :
  groupChildren (settle m w) = groupChildren (m w).1.
Proof. unfold settle. destruct (m w) as [w1 [a|e]]; reflexivity. Qed.

(** Events only ever add children to the anchor group. *)
Lemma dispatch_children (env : Env) (e : Event) (w : World) :
  exists more, groupChildren (dispatch env e w) = groupChildren w ++ more.
Proof.
  destruct e as [|h|W H|g| |granted]; simpl.
  - exists []. rewrite app_nil_r.
    rewrite (page_groupChildren _ _ (runFrameCallbacks_page env _ _)).
    reflexivity.
  - exists []. rewrite app_nil_r.
    destruct (isVisible h w && listens h w); [|reflexivity].
    rewrite settle_groupChildren. unfold_script. simpl.
    destruct (placeButton w); reflexivity.
  - exists []. rewrite app_nil_r. destruct (resizeListener w); reflexivity.
  - destruct (loadPending w); [|exists []; rewrite app_nil_r; reflexivity].
    rewrite settle_groupChildren. unfold_script. simpl.
    destruct (placeButton w); simpl; [eexists; reflexivity|].
    exists []. rewrite app_nil_r. reflexivity.
  - exists []. rewrite app_nil_r. destruct (loadPending w); reflexivity.
  - exists []. rewrite app_nil_r.
    destruct (permissionPending w); [|reflexivity].
    rewrite settle_groupChildren. destruct granted; reflexivity.
Qed.

Lemma run_children (env : Env) (es : list Event) :
  forall w, exists more,
    groupChildren (run env es w) = groupChildren w ++ more.
Proof.
  induction es as [|e es IH]; intros w.
  - exists []. rewrite app_nil_r. reflexivity.
  - rewrite run_cons. destruct (IH (dispatch env e w)) as (m2 & ->).
    destruct (dispatch_children env e w) as (m1 & ->).
    exists (m1 ++ m2). rewrite app_assoc. reflexivity.
Qed.

(** C9.  With the resize listener registered, a resize to W by H sets the
    renderer's size to exactly (W, H) within the event, and changes nothing
    else beside the viewport itself.  The anchor group's children are the
    same objects with the same properties, so a ground plane built for a
    W0 by H0 viewport still has a W0 by H0 geometry; this stays so under
    any sequence of events. *)
Theorem resize_sets_renderer_size (env : Env) (w : World) (W H : Z) :
  resizeListener w = true ->
  let w' := dispatch env (Resize W H) w in
  w' = set_rendererSize (Some (W, H)) (set_viewport W H w) /\
  rendererSize w' = Some (W, H) /\
  groupChildren w' = groupChildren w /\
  elements w' = elements w /\
  hasPlaced w' = hasPlaced w /\
  scheduled w' = scheduled w /\
  log w' = log w /\
  uncaught w' = uncaught w /\
  forall W0 H0 es,
    In (plane W0 H0) (groupChildren w) ->
    In (plane W0 H0) (groupChildren (run env (Resize W H :: es) w)).
Proof.
  intros Hr. cbv zeta. cbn [dispatch]. rewrite Hr.
  repeat (split; [reflexivity|]).
  intros W0 H0 es Hin.
  destruct (run_children env (Resize W H :: es) w) as (more & ->).
  apply in_or_app. left. exact Hin.
Qed.

(** ** The script in an environment where no call throws *)

Lemma call_quiet (env : Env) (c : Call) (w : World) :
  quiet env -> call env c w = (record c w, Normal tt).
Proof. intros [_ Hq]. unfold call. rewrite Hq. reflexivity. Qed.

Ltac norm_world :=
  unfold record, set_elements, set_canvas, set_placeButton, set_viewport,
    set_rendererSize, set_groupChildren, set_hasPlaced, set_clickListeners,
    set_resizeListener, set_loadPending, set_permissionPending,
    set_scheduled, set_log, set_uncaught;
  cbn [elements canvas placeButton innerWidth innerHeight rendererSize
       groupChildren hasPlaced clickListeners resizeListener loadPending
       permissionPending scheduled log uncaught].

Ltac run_step env Hq :=
  first
    [ rewrite bind_assoc
    | rewrite (bind_normal _ _ _ _ tt (call_quiet env _ _ Hq))
    | erewrite bind_normal by reflexivity ];
  norm_world.

Lemma main_quiet (env : Env) :
  quiet env -> main env (initWorld env) = (started env, Normal tt).
Proof.
  intros Hq. unfold main, started. rewrite (proj1 Hq).
  unfold newWebGLRenderer, appendCanvas, findPlaceButton, setSizeToViewport,
    groupAdd, updateElement, initWorld.
  destruct (getElementById "tap-to-place" (withCanvas env)) as [h|] eqn:Hg;
    repeat (run_step env Hq; fold (withCanvas env); rewrite ?Hg);
    rewrite render_unfold; norm_world;
    (rewrite (proj2 (firstFailure_None env _ _))
       by (intros; apply (proj2 Hq)));
    norm_world; cbn [app setupCalls frameSteps delegated];
    rewrite <- ?app_assoc; reflexivity.
Qed.

Lemma boot_quiet (env : Env) : quiet env -> boot env = started env.
Proof. intros Hq. unfold boot, settle. rewrite (main_quiet env Hq). reflexivity. Qed.

(** ** The page without a tap-to-place element *)

Lemma findIndex_None {A : Type} (p : A -> bool) (l : list A) :
  findIndex p l = None <-> Forall (fun x => p x = false) l.
Proof.
  induction l as [|x l IH]; simpl.
  - split; [constructor | reflexivity].
  - destruct (p x) eqn:Hx.
    + split; [discriminate|]. intros H. inversion H; congruence.
    + destruct (findIndex p l); simpl.
      * split; [discriminate|]. intros H. inversion H as [|? ? _ Hl]; subst.
        apply IH in Hl. discriminate.
      * split; [|reflexivity]. intros _. constructor; [exact Hx|].
        apply IH. reflexivity.
Qed.

Lemma getElementById_new (s tag : string) (els : list Element) :
  getElementById s els = None ->
  getElementById s (els ++ [newElement tag]) = None.
Proof.
  unfold getElementById. rewrite !findIndex_None. intros H.
  apply Forall_app. split; [exact H|]. repeat constructor.
Qed.

Lemma getElementById_alter (s : string) (f : Element -> Element) (h : nat)
  (els : list Element) :
  (forall e, els !! h = Some e -> hasId s (f e) = false) ->
  getElementById s els = None ->
  getElementById s (alter f h els) = None.
Proof.
  unfold getElementById. rewrite !findIndex_None, !Forall_lookup.
  intros Hf H i x. rewrite list_lookup_alter.
  destruct (decide (h = i)) as [->|Hne]; [|apply H].
  destruct (els !! i) as [e|] eqn:He; simpl; [|discriminate].
  intros [= <-]. apply Hf. reflexivity.
Qed.

Lemma page_core (w1 w2 : World) : page w1 = page w2 -> core w1 = core w2.
Proof. unfold page, core. intros H. congruence. Qed.

Lemma fallbackInv_core (env : Env) (w1 w2 : World) :
  core w1 = core w2 -> fallbackInv env w1 -> fallbackInv env w2.
Proof.
  unfold core, fallbackInv, detachedDiv. intros [= He Hc Hb Hp Hl].
  rewrite He, Hc, Hb, Hp, Hl. intros H. exact H.
Qed.

Lemma detachedDiv_hidden (env : Env) (w : World) (b : nat) :
  detachedDiv env w b -> isVisible b w = false.
Proof.
  intros (_ & _ & e & He & Hc & _). unfold isVisible, visible.
  rewrite He, Hc. reflexivity.
Qed.

Lemma fallbackInv_init (env : Env) :
  getElementById "tap-to-place" (document0 env) = None ->
  fallbackInv env (initWorld env).
Proof.
  intros H. unfold fallbackInv. simpl. split; [reflexivity|].
  split; [exact H|]. split; [lia|]. split; [discriminate|].
  intros b [Hb|[]]. discriminate.
Qed.

Lemma lookup_snoc_new {A : Type} (l : list A) (x : A) :
  (l ++ [x]) !! length l = Some x.
Proof. apply list_lookup_middle. reflexivity. Qed.

Lemma detachedDiv_snoc (env : Env) (w : World) (x : Element) (b : nat) :
  detachedDiv env w b ->
  detachedDiv env (set_elements (elements w ++ [x]) w) b.
Proof.
  intros (Hc & Hl & e & He & Hrest). split; [exact Hc|]. split; [exact Hl|].
  exists e. split; [|exact Hrest]. simpl.
  rewrite lookup_app_l; [exact He|]. apply (lookup_lt_Some _ _ _ He).
Qed.

Lemma inv_newCanvas (env : Env) (w : World) :
  fallbackInv env w ->
  fallbackInv env
    (set_canvas (Some (length (elements w)))
       (set_elements (elements w ++ [newElement "canvas"]) w)).
Proof.
  intros (Hp & Hg & Hl & Hc & Hb). unfold fallbackInv. simpl.
  split; [exact Hp|]. split; [apply getElementById_new; exact Hg|].
  split; [rewrite length_app; lia|]. split.
  - intros c [= <-]. exists (newElement "canvas").
    split; [apply lookup_snoc_new | reflexivity].
  - intros b Hb'. destruct (Hb b Hb') as (Hcb & Hlb & e & He & Hrest).
    split.
    + intros [= E]. apply lookup_lt_Some in He. lia.
    + split; [exact Hlb|]. exists e. split; [|exact Hrest]. simpl.
      rewrite lookup_app_l; [exact He|]. apply (lookup_lt_Some _ _ _ He).
Qed.

Lemma inv_appendCanvas (env : Env) (w : World) (c : nat) :
  fallbackInv env w -> canvas w = Some c ->
  fallbackInv env
    (set_elements (alter (set_isConnected true) c (elements w)) w).
Proof.
  intros (Hp & Hg & Hl & Hc & Hb) Hcv. unfold fallbackInv. simpl.
  split; [exact Hp|]. split.
  { apply getElementById_alter; [|exact Hg]. intros e He.
    destruct (Hc c Hcv) as (e' & He' & Hid). rewrite He in He'.
    injection He' as <-. unfold hasId. simpl. rewrite Hid. reflexivity. }
  split; [rewrite length_alter; exact Hl|]. split.
  - intros c' Hc'. rewrite Hcv in Hc'. injection Hc' as <-.
    destruct (Hc c Hcv) as (e & He & Hid).
    exists (set_isConnected true e). rewrite list_lookup_alter_eq, He.
    split; [reflexivity | exact Hid].
  - intros b Hb'. destruct (Hb b Hb') as (Hcb & Hlb & e & He & Hrest).
    split; [exact Hcb|]. split; [exact Hlb|]. exists e.
    split; [|exact Hrest]. simpl. rewrite list_lookup_alter_ne; [exact He|].
    intros ->. apply Hcb. exact Hcv.
Qed.

Lemma inv_findPlaceButton (env : Env) (w : World) :
  fallbackInv env w ->
  fallbackInv env
    match getElementById "tap-to-place" (elements w) with
    | Some h => set_placeButton (Some h) w
    | None =>
        set_placeButton (Some (length (elements w)))
          (set_elements (elements w ++ [newElement "div"]) w)
    end.
Proof.
  intros (Hp & Hg & Hl & Hc & Hb). rewrite Hg. unfold fallbackInv. simpl.
  split; [exact Hp|]. split; [apply getElementById_new; exact Hg|].
  split; [rewrite length_app; lia|]. split.
  - intros c Hcv. destruct (Hc c Hcv) as (e & He & Hid). exists e.
    split; [|exact Hid]. rewrite lookup_app_l; [exact He|].
    apply (lookup_lt_Some _ _ _ He).
  - intros b [[= <-]|Hin].
    + split.
      * intros Hcv. destruct (Hc _ Hcv) as (e & He & _).
        apply lookup_lt_Some in He. lia.
      * split; [exact Hl|]. exists (newElement "div").
        split; [apply lookup_snoc_new|]. repeat split; reflexivity.
    + apply (detachedDiv_snoc env w (newElement "div") b).
      apply Hb. right. exact Hin.
Qed.

Lemma inv_addListener (env : Env) (w : World) (b : nat) :
  fallbackInv env w -> placeButton w = Some b ->
  fallbackInv env (set_clickListeners (clickListeners w ++ [b]) w).
Proof.
  intros (Hp & Hg & Hl & Hc & Hb) Hpb. unfold fallbackInv. simpl.
  repeat (split; [assumption|]).
  intros b' [Hb'|Hin]; [apply Hb; left; exact Hb'|].
  apply in_app_or in Hin as [Hin|[<-|[]]]; apply Hb; auto.
Qed.

Lemma inv_display (env : Env) (w : World) (b : nat) :
  fallbackInv env w ->
  fallbackInv env
    (set_elements (alter (set_styleDisplay "block") b (elements w)) w).
Proof.
  intros (Hp & Hg & Hl & Hc & Hb). unfold fallbackInv. simpl.
  split; [exact Hp|]. split.
  { apply getElementById_alter; [|exact Hg]. intros e He.
    unfold getElementById in Hg. rewrite findIndex_None, Forall_lookup in Hg.
    apply (Hg b e He). }
  split; [rewrite length_alter; exact Hl|]. split.
  - intros c Hcv. destruct (Hc c Hcv) as (e & He & Hid).
    rewrite list_lookup_alter. destruct (decide (b = c)) as [->|_].
    + exists (set_styleDisplay "block" e). rewrite He.
      split; [reflexivity | exact Hid].
    + exists e. split; [exact He | exact Hid].
  - intros b' Hb'.
    destruct (Hb b' Hb') as (Hcb & Hlb & e & He & Hcn & Htag & Hid).
    split; [exact Hcb|]. split; [exact Hlb|]. simpl.
    rewrite list_lookup_alter. destruct (decide (b = b')) as [->|_].
    + exists (set_styleDisplay "block" e). rewrite He.
      repeat split; assumption.
    + exists e. repeat split; assumption.
Qed.

Lemma inv_unplace (env : Env) (w : World) :
  fallbackInv env w -> fallbackInv env (set_hasPlaced false w).
Proof.
  intros (Hp & Hrest). split; [reflexivity | exact Hrest].
Qed.

Lemma inv_page (env : Env) (w1 w2 : World) :
  page w1 = page w2 -> fallbackInv env w1 -> fallbackInv env w2.
Proof. intros E. apply fallbackInv_core, page_core, E. Qed.

(** The script keeps the invariant, up to wherever it gets. *)
Lemma main_fallback (env : Env) : preserves (fallbackInv env) (main env).
Proof.
  unfold main. preserves_steps;
    try (intros w H; apply (fallbackInv_core env w); [reflexivity | exact H]).
  - intros w H. exact (inv_newCanvas env w H).
  - intros c w H Hc. exact (inv_appendCanvas env w c H Hc).
  - intros w H. exact (inv_findPlaceButton env w H).
  - intros w H. exact (inv_unplace env w H).
  - intros b w H Hb. unfold mbind, M_bind, modify.
    apply (inv_page env _ _ (eq_sym (render_page env _))).
    exact (inv_addListener env w b H Hb).
Qed.

Lemma settle_inv (env : Env) (m : M unit) (w : World) :
  fallbackInv env (m w).1 -> fallbackInv env (settle m w).
Proof.
  unfold settle. destruct (m w) as [w1 [a|e]]; simpl; [auto|].
  apply fallbackInv_core. reflexivity.
Qed.

(** No event breaks the invariant. *)
Lemma dispatch_fallback (env : Env) (e : Event) (w : World) :
  fallbackInv env w -> fallbackInv env (dispatch env e w).
Proof.
  intros H. destruct e as [|h|W H0|g| |granted]; simpl.
  - apply (inv_page env (set_scheduled O w)).
    + symmetry. apply (runFrameCallbacks_page env).
    + apply (fallbackInv_core env w); [reflexivity | exact H].
  - destruct (isVisible h w && listens h w) eqn:Hv; [|exact H].
    apply andb_true_iff in Hv as [Hv Hl]. exfalso.
    unfold listens in Hl. apply existsb_exists in Hl as (h' & Hin & Heq).
    apply Nat.eqb_eq in Heq. subst h'.
    destruct H as (_ & _ & _ & _ & Hb).
    rewrite (detachedDiv_hidden env w h) in Hv; [discriminate|].
    apply Hb. right. exact Hin.
  - destruct (resizeListener w); apply (fallbackInv_core env w);
      try reflexivity; exact H.
  - destruct (loadPending w); [|exact H]. apply settle_inv.
    assert (H1 : fallbackInv env (set_loadPending false w)).
    { apply (fallbackInv_core env w); [reflexivity | exact H]. }
    destruct (placeButton w) as [b|] eqn:Hb.
    + rewrite (loadSuccess_unfold _ b) by exact Hb. cbn [fst].
      apply (fallbackInv_core env
               (set_elements (alter (set_styleDisplay "block") b
                  (elements (set_loadPending false w)))
                  (set_loadPending false w))); [reflexivity|].
      apply inv_display. exact H1.
    + unfold_script. simpl. rewrite Hb. exact H1.
  - destruct (loadPending w); [|exact H]. apply settle_inv.
    apply (fallbackInv_core env w); [reflexivity | exact H].
  - destruct (permissionPending w); [|exact H]. apply settle_inv.
    apply (fallbackInv_core env w); [|exact H].
    destruct granted; reflexivity.
Qed.

Lemma run_fallback (env : Env) (es : list Event) :
  forall w, fallbackInv env w -> fallbackInv env (run env es w).
Proof.
  induction es as [|e es IH]; intros w H; [exact H|].
  rewrite run_cons. apply IH, dispatch_fallback, H.
Qed.

Lemma boot_fallback (env : Env) :
  getElementById "tap-to-place" (document0 env) = None ->
  fallbackInv env (boot env).
Proof.
  intros H. unfold boot. apply settle_inv, main_fallback, fallbackInv_init, H.
Qed.

Lemma withCanvas_noControl (env : Env) :
  getElementById "tap-to-place" (document0 env) = None ->
  getElementById "tap-to-place" (withCanvas env) = None.
Proof.
  intros H. unfold withCanvas. apply getElementById_alter.
  - intros e He. rewrite lookup_snoc_new in He. injection He as <-.
    reflexivity.
  - apply getElementById_new. exact H.
Qed.

Lemma withCanvas_length (env : Env) :
  length (withCanvas env) = S (length (document0 env)).
Proof.
  unfold withCanvas. rewrite length_alter, length_app. simpl. lia.
Qed.

(** C10.  When the document has no element with id tap-to-place, then at
    every moment of the page's life, whatever events arrive:
    - the flag is false;
    - the placement control, and every element carrying the click handler,
      is a div the script created, outside the document and so not on
      screen;
    - no tap runs the handler;
    - the success callback of the load sets the inline display of that
      detached div, which stays outside the document.
    When the script runs to its end, the control is the element created
    right after the canvas and the handler is registered on it. *)
Theorem fallback_control_unreachable (env : Env) (es : list Event) :
  getElementById "tap-to-place" (document0 env) = None ->
  let w := run env es (boot env) in
  hasPlaced w = false /\
  (forall b, placeButton w = Some b \/ In b (clickListeners w) ->
     (length (document0 env) <= b)%nat /\
     (exists e, elements w !! b = Some e /\ tagName e = "div" /\
                idAttr e = None /\ isConnected e = false) /\
     isVisible b w = false) /\
  (forall h, dispatch env (Click h) w = w) /\
  (forall g b, placeButton w = Some b -> loadPending w = true ->
     exists e, elements (dispatch env (LoadSucceeded g) w) !! b = Some e /\
               styleDisplay e = Some "block" /\ isConnected e = false) /\
  (quiet env ->
     let b := S (length (document0 env)) in
     placeButton (boot env) = Some b /\
     clickListeners (boot env) = [b] /\
     elements (boot env) !! b = Some (newElement "div")).
Proof.
  intros Hdoc. cbv zeta.
  pose proof (run_fallback env es _ (boot_fallback env Hdoc)) as Hinv.
  set (w := run env es (boot env)) in *.
  destruct Hinv as (Hp & Hg & Hl & Hc & Hb).
  split; [exact Hp|]. split.
  { intros b Hb'. pose proof (Hb b Hb') as Hd.
    pose proof (detachedDiv_hidden env w b Hd) as Hv.
    destruct Hd as (_ & Hlb & e & He & Hcn & Htag & Hid).
    split; [exact Hlb|]. split; [|exact Hv].
    exists e. repeat split; assumption. }
  split.
  { intros h. cbn [dispatch].
    destruct (isVisible h w && listens h w) eqn:Hv; [|reflexivity].
    apply andb_true_iff in Hv as [Hv Hls]. exfalso.
    unfold listens in Hls. apply existsb_exists in Hls as (h' & Hin & Heq).
    apply Nat.eqb_eq in Heq. subst h'.
    rewrite (detachedDiv_hidden env w h) in Hv; [discriminate|].
    apply Hb. right. exact Hin. }
  split.
  { intros g b Hpb Hpend. cbn [dispatch]. rewrite Hpend. unfold settle.
    rewrite (loadSuccess_unfold _ b) by exact Hpb.
    destruct (Hb b (or_introl Hpb)) as (_ & _ & e & He & Hcn & _).
    exists (set_styleDisplay "block" e). simpl.
    rewrite list_lookup_alter_eq, He. repeat split. exact Hcn. }
  intros Hq. rewrite (boot_quiet env Hq). unfold started.
  rewrite (withCanvas_noControl env Hdoc), withCanvas_length.
  cbn [placeButton clickListeners elements].
  split; [reflexivity|]. split; [reflexivity|].
  rewrite <- withCanvas_length. apply lookup_snoc_new.
Qed.

(** * Concrete pages *)

Example boot_page_log :
  log (boot pageEnv) = setupCalls ++ frameSteps false.
Proof. reflexivity. Qed.

Example loaded_control_visible : isVisible 0 loadedPage = true.
Proof. reflexivity. Qed.

Example frames_before_and_after_tap :
  offsetRequests
    (log (run pageEnv [AnimationFrame; Click 0%nat; AnimationFrame;
                       AnimationFrame] loadedPage))
  = [(0, 0, -2); (0, 0, -2)].
Proof. reflexivity. Qed.

Example loaded_mug_shadows :
  List.map castShadow (nodes (placedModel mug)) = [false; true; false; true].
Proof. reflexivity. Qed.

Lemma placement_is_terminal_witness :
  isVisible 0 loadedPage = true /\ listens 0 loadedPage = true /\
  let w1 := dispatch pageEnv (Click 0%nat) loadedPage in
  hasPlaced w1 = true /\
  hasPlaced (run pageEnv [AnimationFrame; AnimationFrame] w1) = true /\
  offsetRequests (log (run pageEnv [AnimationFrame; AnimationFrame] w1))
  = offsetRequests (log w1).
Proof.
  split; [reflexivity|]. split; [reflexivity|].
  destruct (placement_is_terminal pageEnv) as (_ & _ & _ & _ & H).
  apply (H 0%nat loadedPage [AnimationFrame; AnimationFrame]); reflexivity.
Defined.

Lemma loadSuccess_effects_witness :
  placeButton (boot pageEnv) = Some 0%nat /\
  elements (boot pageEnv) !! 0%nat = Some tapControl /\
  isVisible 0 (loadSuccess mug (boot pageEnv)).1 = true /\
  occurrences 10 (groupChildren (loadSuccess mug (boot pageEnv)).1) = 1%nat.
Proof.
  split; [reflexivity|]. split; [reflexivity|].
  destruct (loadSuccess_effects (boot pageEnv) 0 tapControl mug)
    as (_ & _ & Hv & _ & _ & _ & _ & _ & _ & _ & _ & _ & Hocc & _).
  - reflexivity.
  - reflexivity.
  - vm_compute. intuition discriminate.
  - split; [exact Hv | exact Hocc].
Defined.

Lemma clickHandler_idempotent_witness :
  placeButton loadedPage = Some 0%nat /\
  clickHandler (clickHandler loadedPage).1
  = ((clickHandler loadedPage).1, Normal tt).
Proof.
  split; [reflexivity|].
  destruct (clickHandler_idempotent pageEnv loadedPage 0)
    as (_ & _ & _ & H & _); [reflexivity | exact H].
Defined.

Lemma unsupported_browser_aborts_witness :
  incompatible oldBrowser = true /\
  log (boot oldBrowser) = [BrowserIncompatible; BrowserIncompatibleUI] /\
  uncaught (boot oldBrowser) = [Error "Unsupported browser"].
Proof.
  split; [reflexivity|].
  destruct (unsupported_browser_aborts oldBrowser) as (_ & H & _);
    [reflexivity | reflexivity | reflexivity |].
  rewrite H. split; reflexivity.
Defined.

Lemma resize_sets_renderer_size_witness :
  resizeListener loadedPage = true /\
  rendererSize (dispatch pageEnv (Resize 1024 768) loadedPage)
  = Some (1024, 768) /\
  In (plane 800 600)
     (groupChildren (run pageEnv [Resize 1024 768; AnimationFrame] loadedPage)).
Proof.
  split; [reflexivity|].
  destruct (resize_sets_renderer_size pageEnv loadedPage 1024 768)
    as (_ & Hs & _ & _ & _ & _ & _ & _ & Hplane); [reflexivity|].
  split; [exact Hs|].
  apply (Hplane 800 600 [AnimationFrame]).
  vm_compute. right. right. left. reflexivity.
Defined.

Lemma fallback_control_unreachable_witness :
  getElementById "tap-to-place" (document0 bareEnv) = None /\
  let w := run bareEnv [AnimationFrame; LoadSucceeded mug; Click 1%nat;
                        AnimationFrame] (boot bareEnv) in
  hasPlaced w = false /\ dispatch bareEnv (Click 1%nat) w = w.
Proof.
  split; [reflexivity|].
  destruct (fallback_control_unreachable bareEnv
              [AnimationFrame; LoadSucceeded mug; Click 1%nat;
               AnimationFrame])
    as (Hp & _ & Hc & _); [reflexivity|].
  split; [exact Hp | apply Hc].
Defined.

(** * Further properties of the script *)

(** ** Triples and invariants of events *)

Lemma triple_bind {A B : Type} (P R Qn Qt : World -> Prop)
  (m : M A) (k : A -> M B) :
  triple P m R Qt -> (forall a, triple R (k a) Qn Qt) ->
  triple P (m ≫= k) Qn Qt.
Proof.
  intros Hm Hk w H. unfold mbind, M_bind. specialize (Hm w H).
  destruct (m w) as [w1 [a|e]]; [apply Hk; exact Hm | exact Hm].
Qed.

Lemma triple_preserves {A : Type} (P Qt : World -> Prop) (m : M A) :
  preserves P m -> (forall w, P w -> Qt w) -> triple P m P Qt.
Proof.
  intros Hm Ht w H. specialize (Hm w H).
  destruct (m w) as [w1 [a|e]]; simpl in Hm; auto.
Qed.

Lemma triple_weaken {A : Type} (P Qn Qn' Qt : World -> Prop) (m : M A) :
  triple P m Qn Qt -> (forall w, Qn w -> Qn' w) -> triple P m Qn' Qt.
Proof.
  intros Hm Hn w H. specialize (Hm w H).
  destruct (m w) as [w1 [a|e]]; auto.
Qed.

(** What the script establishes holds of the page it leaves behind. *)
Lemma triple_boot (env : Env) (P Q : World -> Prop) :
  triple P (main env) Q Q -> P (initWorld env) ->
  (forall w u, Q w -> Q (set_uncaught u w)) ->
  Q (boot env).
Proof.
  intros Hm H0 Hu. unfold boot, settle. specialize (Hm _ H0).
  destruct (main env (initWorld env)) as [w1 [a|e]]; auto.
Qed.

(** An invariant of the callbacks that the host's bookkeeping does not
    disturb is an invariant of every event. *)
Lemma dispatch_preserves (env : Env) (P : World -> Prop) :
  hostBlind P ->
  (forall W H w, P w ->
     P (if resizeListener w
        then settle resizeHandler (set_viewport W H w)
        else set_viewport W H w)) ->
  preserves P (render env) ->
  preserves P clickHandler ->
  (forall g, preserves P (loadSuccess g)) ->
  preserves P loadError ->
  (forall granted, preserves P (permissionThen env granted)) ->
  forall e w, P w -> P (dispatch env e w).
Proof.
  intros Hb Hv Hr Hc Hs He Hp e w H.
  assert (Hsettle : forall m w, preserves P m -> P w -> P (settle m w)).
  { intros m w0 Hm H0. apply preserves_settle; [|exact Hm|exact H0].
    intros w1 u H1. apply (Hb w1 H1). }
  destruct e as [|h|W H0|g| |granted]; simpl.
  - assert (Hn : forall n w, P w -> P (runFrameCallbacks env n w)).
    { induction n as [|n IH]; intros w0 H0; simpl; [exact H0|].
      apply IH, Hsettle; assumption. }
    apply Hn. apply (Hb w H).
  - destruct (isVisible h w && listens h w); [|exact H].
    apply Hsettle; assumption.
  - apply Hv. exact H.
  - destruct (loadPending w); [|exact H].
    apply Hsettle; [apply Hs|]. apply (Hb w H).
  - destruct (loadPending w); [|exact H].
    apply Hsettle; [exact He|]. apply (Hb w H).
  - destruct (permissionPending w); [|exact H].
    apply Hsettle; [apply Hp|]. apply (Hb w H).
Qed.

Lemma run_preserves (env : Env) (P : World -> Prop) :
  (forall e w, P w -> P (dispatch env e w)) ->
  forall es w, P w -> P (run env es w).
Proof.
  intros Hd es. induction es as [|e es IH]; intros w H; [exact H|].
  rewrite run_cons. apply IH, Hd, H.
Qed.

(** ** What the script asks of its collaborators *)

Lemma madeByScript_record (c : Call) (w : World) :
  madeByScript c = true ->
  Forall (fun c => madeByScript c = true) (log w) ->
  Forall (fun c => madeByScript c = true) (log (record c w)).
Proof.
  intros Hc H. unfold record. simpl. apply Forall_app. split; [exact H|].
  constructor; [exact Hc | constructor].
Qed.

(** Going through a statement without using what a read returns. *)
Ltac preserves_plain :=
  repeat first
    [ apply preserves_bind; [|intros ?]
    | apply preserves_if
    | apply preserves_ret
    | apply preserves_throw
    | apply preserves_gets
    | apply preserves_readPlaceButton
    | apply preserves_readCanvas
    | apply preserves_call
    | apply preserves_host
    | apply preserves_modify
    | progress unfold newWebGLRenderer, appendCanvas, findPlaceButton,
        requestAnimationFrame, groupAdd, updateElement, setSizeToViewport,
        resizeHandler, loadError, permissionThen, clickHandler, loadSuccess
    | progress cbv zeta ].

(** Side conditions of an invariant that reads only the log. *)
Ltac log_only rec_lemma :=
  first
    [ intros ? H; apply rec_lemma; [reflexivity | exact H]
    | intros ? H; exact H
    | intros ? ? H _; exact H
    | intros ? H; destruct (getElementById _ _); exact H ].

Lemma main_calls (env : Env) :
  preserves (fun w => Forall (fun c => madeByScript c = true) (log w))
    (main env).
Proof. unfold main. preserves_plain; log_only madeByScript_record. Qed.

Lemma dispatch_calls (env : Env) (e : Event) (w : World) :
  Forall (fun c => madeByScript c = true) (log w) ->
  Forall (fun c => madeByScript c = true) (log (dispatch env e w)).
Proof.
  apply (dispatch_preserves env
           (fun w => Forall (fun c => madeByScript c = true) (log w))).
  - intros w0 H. repeat split; try exact H. intros u. exact H.
  - intros W H w0 H0. destruct (resizeListener w0); exact H0.
  - unfold render. preserves_plain; log_only madeByScript_record.
  - preserves_plain; log_only madeByScript_record.
  - intros g. preserves_plain; log_only madeByScript_record.
  - preserves_plain; log_only madeByScript_record.
  - intros granted. preserves_plain; log_only madeByScript_record.
Qed.

Lemma offsets_of_script_calls (l : list Call) :
  Forall (fun c => madeByScript c = true) l ->
  Forall (fun o => o = (0, 0, -2)) (offsetRequests l).
Proof.
  induction 1 as [|c l Hc _ IH]; simpl; [constructor|].
  destruct c; try exact IH. constructor; [|exact IH].
  simpl in Hc. apply andb_true_iff in Hc as [Hc Hz].
  apply andb_true_iff in Hc as [Hx Hy].
  apply Z.eqb_eq in Hx, Hy, Hz. subst. reflexivity.
Qed.

(** X1.  Whatever the environment and whatever events arrive, every offset
    the page ever requests for the anchor is (0, 0, -2): no statement of the
    script asks for another camera offset. *)
Theorem offsets_always_constant (env : Env) (es : list Event) :
  offsetsConstant (run env es (boot env)).
Proof.
  unfold offsetsConstant. apply offsets_of_script_calls.
  apply (run_preserves env
           (fun w => Forall (fun c => madeByScript c = true) (log w))).
  - apply dispatch_calls.
  - unfold boot. apply preserves_settle.
    + intros w u H. exact H.
    + apply main_calls.
    + constructor.
Qed.

(** ** The pending frame callback *)

Lemma settle_scheduled (m : M unit) (w : World) :
  scheduled (settle m w) = scheduled (m w).1.
Proof. unfold settle. destruct (m w) as [w1 [a|e]]; reflexivity. Qed.

(** An event other than a display refresh leaves the pending frame
    callbacks alone and makes at most one call, none of them a call of the
    frame. *)
Lemma dispatch_other (env : Env) (e : Event) (w : World) :
  isAnimationFrame e = false ->
  scheduled (dispatch env e w) = scheduled w /\
  exists extra,
    log (dispatch env e w) = log w ++ extra /\
    (extra = [] \/
     extra = [ConsoleLog "An error ocurred loading the GLTF model"] \/
     extra = [CameraStart] \/ extra = [PermissionDeniedUI]).
Proof.
  intros Hf. destruct e as [|h|W H|g| |granted]; [discriminate|..]; simpl.
  - destruct (isVisible h w && listens h w).
    + rewrite settle_scheduled, settle_log. unfold_script. simpl.
      destruct (placeButton w); simpl; split; try reflexivity;
        exists []; rewrite app_nil_r; auto.
    + split; [reflexivity|]. exists []. rewrite app_nil_r. auto.
  - destruct (resizeListener w); simpl; split; try reflexivity;
      exists []; rewrite app_nil_r; auto.
  - destruct (loadPending w).
    + rewrite settle_scheduled, settle_log. unfold_script. simpl.
      destruct (placeButton w); simpl; split; try reflexivity;
        exists []; rewrite app_nil_r; auto.
    + split; [reflexivity|]. exists []. rewrite app_nil_r. auto.
  - destruct (loadPending w).
    + rewrite settle_scheduled, settle_log. simpl. split; [reflexivity|].
      eexists. split; [reflexivity|]. auto.
    + split; [reflexivity|]. exists []. rewrite app_nil_r. auto.
  - destruct (permissionPending w).
    + rewrite settle_scheduled, settle_log.
      destruct granted; simpl; (split; [reflexivity|]);
        eexists; (split; [reflexivity|]); auto.
    + split; [reflexivity|]. exists []. rewrite app_nil_r. auto.
Qed.

Lemma countCalls_app (p : Call -> bool) (l1 l2 : list Call) :
  countCalls p (l1 ++ l2) = (countCalls p l1 + countCalls p l2)%nat.
Proof. unfold countCalls. rewrite List.filter_app, length_app. reflexivity. Qed.

(** A frame started with nothing pending leaves one callback pending when
    it returns and none when it throws. *)
Lemma render_schedules (env : Env) :
  triple (fun w => scheduled w = O) (render env)
    (fun w => scheduled w = 1%nat) (fun w => scheduled w = O).
Proof.
  intros w H. rewrite render_unfold.
  destruct (firstFailure env (log w) (delegated (hasPlaced w))) as [[d c]|];
    simpl; rewrite ?H; reflexivity.
Qed.

(** The script schedules its first frame as its last step: it leaves one
    callback pending when it returns and none when it throws. *)
Lemma main_schedules (env : Env) :
  triple (fun w => scheduled w = O) (main env)
    (fun w => scheduled w = 1%nat) (fun w => scheduled w = O).
Proof.
  unfold main.
  repeat first
    [ apply render_schedules
    | eapply triple_bind;
      [apply triple_preserves; [|intros ? H; exact H] | intros ?] ].
  all: preserves_plain;
    first [ intros ? H; exact H
          | intros ? H; destruct (getElementById _ _); exact H ].
Qed.

Lemma boot_scheduled (env : Env) :
  scheduled (boot env) =
  match (main env (initWorld env)).2 with
  | Normal _ => 1%nat
  | Throw _ => O
  end.
Proof.
  unfold boot, settle. pose proof (main_schedules env (initWorld env) eq_refl) as H.
  destruct (main env (initWorld env)) as [w1 [a|e]]; exact H.
Qed.

Lemma dispatch_at_most_one (env : Env) (e : Event) (w : World) :
  (scheduled w <= 1)%nat -> (scheduled (dispatch env e w) <= 1)%nat.
Proof.
  intros H. destruct (isAnimationFrame e) eqn:He.
  - destruct e; try discriminate. simpl.
    destruct (scheduled w) as [|[|n]] eqn:Hs; [simpl; lia| |lia].
    simpl. rewrite settle_scheduled.
    pose proof (render_schedules env (set_scheduled O w) eq_refl) as Hr.
    destruct (render env (set_scheduled O w)) as [w1 [a|x]]; simpl; lia.
  - rewrite (proj1 (dispatch_other env e w He)). exact H.
Qed.

(** X2.  Whatever the environment and the events, at most one frame
    callback is pending at any moment: the script starts one frame loop and
    a frame schedules at most its one successor. *)
Theorem at_most_one_frame_pending (env : Env) (es : list Event) :
  (scheduled (run env es (boot env)) <= 1)%nat.
Proof.
  apply (run_preserves env (fun w => (scheduled w <= 1)%nat)).
  - apply dispatch_at_most_one.
  - rewrite boot_scheduled.
    destruct ((main env (initWorld env)).2); lia.
Qed.

Lemma dispatch_stopped (env : Env) (e : Event) (w : World) :
  scheduled w = O ->
  scheduled (dispatch env e w) = O /\
  countCalls isRendererRender (log (dispatch env e w))
  = countCalls isRendererRender (log w).
Proof.
  intros H. destruct (isAnimationFrame e) eqn:He.
  - destruct e; try discriminate. simpl. rewrite H. simpl. auto.
  - destruct (dispatch_other env e w He) as (Hs & extra & -> & Hx).
    split; [rewrite Hs; exact H|]. rewrite countCalls_app.
    destruct Hx as [ -> | [ -> | [ -> | -> ] ] ]; unfold countCalls; simpl; lia.
Qed.

Lemma run_stopped (env : Env) (es : list Event) :
  forall w,
    scheduled w = O ->
    scheduled (run env es w) = O /\
    countCalls isRendererRender (log (run env es w))
    = countCalls isRendererRender (log w).
Proof.
  induction es as [|e es IH]; intros w H; [auto|].
  rewrite run_cons. destruct (dispatch_stopped env e w H) as [Hs Hc].
  destruct (IH _ Hs) as [Hs' Hc']. split; [exact Hs'|]. lia.
Qed.

(** X3.  Once no frame callback is pending, none ever is again and the
    scene is never drawn again, whatever events arrive: only a frame
    schedules a frame. *)
Theorem stopped_loop_stays_stopped (env : Env) (w : World) (es : list Event) :
  scheduled w = O ->
  scheduled (run env es w) = O /\
  countCalls isRendererRender (log (run env es w))
  = countCalls isRendererRender (log w).
Proof. apply run_stopped. Qed.

Lemma stopped_loop_stays_stopped_witness :
  scheduled (boot envMapThrows) = O /\
  scheduled (run envMapThrows [AnimationFrame; Resize 10 10; AnimationFrame]
               (boot envMapThrows)) = O.
Proof.
  split; [reflexivity|].
  apply (stopped_loop_stays_stopped envMapThrows (boot envMapThrows)).
  reflexivity.
Defined.

(** X4.  When the script ends by a throw, at whatever statement, no frame
    callback is pending and no later event draws the scene: a failure
    during startup leaves a page on which nothing is rendered after it. *)
Theorem startup_failure_never_renders
  (env : Env) (e : Exn) (es : list Event) :
  (main env (initWorld env)).2 = Throw e ->
  scheduled (run env es (boot env)) = O /\
  countCalls isRendererRender (log (run env es (boot env)))
  = countCalls isRendererRender (log (boot env)).
Proof.
  intros H. apply run_stopped. rewrite boot_scheduled, H. reflexivity.
Qed.

Lemma startup_failure_never_renders_witness :
  (main oldBrowser (initWorld oldBrowser)).2
  = Throw (Error "Unsupported browser") /\
  countCalls isRendererRender
    (log (run oldBrowser [AnimationFrame; AnimationFrame] (boot oldBrowser)))
  = O.
Proof.
  split; [reflexivity|].
  destruct (startup_failure_never_renders oldBrowser
              (Error "Unsupported browser") [AnimationFrame; AnimationFrame])
    as [_ H]; [reflexivity|].
  rewrite H. reflexivity.
Defined.

(** ** The frame loop when no collaborator throws *)

Lemma render_quiet (env : Env) (w : World) :
  quiet env ->
  render env w =
  (set_scheduled (S (scheduled w))
     (set_log (log w ++ frameSteps (hasPlaced w)) w), Normal tt).
Proof.
  intros Hq. rewrite render_unfold.
  rewrite (proj2 (firstFailure_None env _ _)); [reflexivity|].
  intros. apply (proj2 Hq).
Qed.

Lemma refresh_quiet (env : Env) (w : World) :
  quiet env -> scheduled w = 1%nat ->
  dispatch env AnimationFrame w =
  set_scheduled 1 (set_log (log w ++ frameSteps (hasPlaced w)) w).
Proof.
  intros Hq Hs. simpl. rewrite Hs. simpl. unfold settle.
  rewrite (render_quiet env _ Hq). reflexivity.
Qed.

Lemma dispatch_running (env : Env) (e : Event) (w : World) :
  quiet env -> running w -> running (dispatch env e w).
Proof.
  intros Hq (Hs & Hu & b & Hb). destruct e as [|h|W H|g| |granted].
  - rewrite (refresh_quiet env w Hq Hs). repeat split; eauto.
  - simpl. destruct (isVisible h w && listens h w);
      [|repeat split; eauto].
    unfold settle. rewrite (clickHandler_unfold w b Hb).
    repeat split; eauto.
  - simpl. destruct (resizeListener w); repeat split; eauto.
  - simpl. destruct (loadPending w); [|repeat split; eauto].
    unfold settle. rewrite (loadSuccess_unfold _ b) by exact Hb.
    repeat split; eauto.
  - simpl. destruct (loadPending w); repeat split; eauto.
  - simpl. destruct (permissionPending w); [|repeat split; eauto].
    unfold settle, permissionThen.
    destruct granted; rewrite (call_quiet env _ _ Hq); repeat split; eauto.
Qed.

Lemma boot_running (env : Env) : quiet env -> running (boot env).
Proof.
  intros Hq. rewrite (boot_quiet env Hq). unfold started, running. simpl.
  repeat split; eauto.
Qed.

Lemma run_running (env : Env) (es : list Event) (w : World) :
  quiet env -> running w -> running (run env es w).
Proof.
  intros Hq. apply (run_preserves env running).
  intros e w0. apply dispatch_running. exact Hq.
Qed.

(** X5.  When no collaborator call throws, the frame loop never stops and
    never fails: after any sequence of events exactly one frame callback is
    pending, nothing has been reported as thrown, and the next display
    refresh runs one complete frame. *)
Theorem frame_loop_never_stops (env : Env) (es : list Event) :
  quiet env ->
  let w := run env es (boot env) in
  scheduled w = 1%nat /\
  uncaught w = [] /\
  log (dispatch env AnimationFrame w) = log w ++ frameSteps (hasPlaced w).
Proof.
  intros Hq. cbv zeta.
  destruct (run_running env es _ Hq (boot_running env Hq)) as (Hs & Hu & _).
  split; [exact Hs|]. split; [exact Hu|].
  rewrite (refresh_quiet env _ Hq Hs). reflexivity.
Qed.

Lemma pageEnv_quiet : quiet pageEnv.
Proof. split; [reflexivity | intros l c; reflexivity]. Defined.

Lemma frame_loop_never_stops_witness :
  quiet pageEnv /\
  scheduled (run pageEnv [AnimationFrame; LoadFailed; AnimationFrame]
               (boot pageEnv)) = 1%nat.
Proof.
  split; [exact pageEnv_quiet|].
  apply (frame_loop_never_stops pageEnv
           [AnimationFrame; LoadFailed; AnimationFrame]).
  split; [reflexivity | intros l c; reflexivity].
Defined.

Lemma replicate_snoc {A : Type} (n : nat) (x : A) :
  replicate (S n) x = replicate n x ++ [x].
Proof. induction n as [|n IH]; simpl; [reflexivity|]. f_equal. exact IH. Qed.

(** While the placement has not happened, each display refresh adds one
    offset request and no other event adds any. *)
Lemma run_unplaced_offsets (env : Env) (es : list Event) :
  quiet env ->
  forall w,
    running w ->
    hasPlaced (run env es w) = false ->
    offsetRequests (log (run env es w))
    = offsetRequests (log w) ++ replicate (refreshes es) (0, 0, -2).
Proof.
  intros Hq. induction es as [|e es IH]; intros w Hr Hp.
  - simpl. rewrite app_nil_r. reflexivity.
  - rewrite run_cons in *.
    assert (Hw : hasPlaced w = false).
    { destruct (hasPlaced w) eqn:E; [|reflexivity].
      destruct (dispatch_placed env e w E) as [E' _].
      destruct (run_placed env es _ E') as [E'' _]. congruence. }
    rewrite (IH _ (dispatch_running env e w Hq Hr) Hp).
    destruct (isAnimationFrame e) eqn:He.
    + destruct e; try discriminate.
      rewrite (refresh_quiet env w Hq (proj1 Hr)), Hw.
      unfold refreshes. simpl. rewrite offsetRequests_app. simpl.
      rewrite <- app_assoc. reflexivity.
    + destruct (dispatch_other env e w He) as (_ & extra & -> & Hx).
      rewrite offsetRequests_app.
      assert (Hn : refreshes (e :: es) = refreshes es).
      { unfold refreshes. simpl. rewrite He. reflexivity. }
      rewrite Hn.
      destruct Hx as [ -> | [ -> | [ -> | -> ] ] ]; simpl;
        rewrite app_nil_r; reflexivity.
Qed.

(** X6.  When no collaborator call throws and the placement has not
    happened by the end of a sequence of events, the page has requested the
    offset (0, 0, -2) once for the frame the script runs itself and once
    for every display refresh since, and nothing else. *)
Theorem unplaced_refresh_requests_offset (env : Env) (es : list Event) :
  quiet env ->
  hasPlaced (run env es (boot env)) = false ->
  offsetRequests (log (run env es (boot env)))
  = replicate (S (refreshes es)) (0, 0, -2).
Proof.
  intros Hq Hp.
  rewrite (run_unplaced_offsets env es Hq _ (boot_running env Hq) Hp).
  rewrite (boot_quiet env Hq). unfold started. simpl. reflexivity.
Qed.

Lemma unplaced_refresh_requests_offset_witness :
  hasPlaced (run pageEnv [AnimationFrame; Resize 10 10; AnimationFrame]
               (boot pageEnv)) = false /\
  offsetRequests
    (log (run pageEnv [AnimationFrame; Resize 10 10; AnimationFrame]
            (boot pageEnv)))
  = [(0, 0, -2); (0, 0, -2); (0, 0, -2)].
Proof.
  split; [reflexivity|].
  apply (unplaced_refresh_requests_offset pageEnv
           [AnimationFrame; Resize 10 10; AnimationFrame]).
  - split; [reflexivity | intros l c; reflexivity].
  - reflexivity.
Defined.

(** ** The renderer's size *)

Lemma setSize_tracks :
  triple (fun w => resizeListener w = false) setSizeToViewport
    (fun w => rendererSize w = Some (innerWidth w, innerHeight w))
    sizeTracksViewport.
Proof. intros w H. reflexivity. Qed.

(** The script sizes the renderer before it registers the resize listener,
    and no later statement touches either the size or the viewport. *)
Lemma main_tracks (env : Env) :
  triple (fun w => resizeListener w = false) (main env)
    sizeTracksViewport sizeTracksViewport.
Proof.
  apply (triple_weaken _
           (fun w => rendererSize w = Some (innerWidth w, innerHeight w))).
  2: { intros w H _. exact H. }
  unfold main.
  repeat (eapply triple_bind;
          [ first [ apply setSize_tracks
                  | apply triple_preserves;
                    [|intros w H Hl; first [exact H | congruence]] ]
          | intros ? ]).
  all: try (apply triple_preserves;
            [|intros w H Hl; first [exact H | congruence]]).
  all: preserves_plain;
    first [ intros ? H; exact H
          | intros ? H; destruct (getElementById _ _); exact H ].
Qed.

Lemma dispatch_tracks (env : Env) (e : Event) (w : World) :
  sizeTracksViewport w -> sizeTracksViewport (dispatch env e w).
Proof.
  apply (dispatch_preserves env sizeTracksViewport).
  - intros w0 H. repeat split; try exact H. intros u. exact H.
  - intros W H w0 H0. destruct (resizeListener w0) eqn:Hl.
    + intros _. reflexivity.
    + intros Hl'. simpl in Hl'. congruence.
  - unfold render. preserves_plain; intros ? H; exact H.
  - preserves_plain; intros ? H; exact H.
  - intros g. preserves_plain; intros ? H; exact H.
  - preserves_plain; intros ? H; exact H.
  - intros granted. preserves_plain; intros ? H; exact H.
Qed.

(** X7.  Whatever the environment and the events, once the resize listener
    is registered the renderer has the size of the viewport at every
    moment between events: the script sizes the renderer before it
    registers the listener, and the listener resizes it within each resize
    event. *)
Theorem renderer_size_tracks_viewport (env : Env) (es : list Event) :
  let w := run env es (boot env) in
  resizeListener w = true ->
  rendererSize w = Some (innerWidth w, innerHeight w).
Proof.
  cbv zeta. apply (run_preserves env sizeTracksViewport).
  - apply dispatch_tracks.
  - apply (triple_boot env (fun w => resizeListener w = false)).
    + apply main_tracks.
    + reflexivity.
    + intros w u H. exact H.
Qed.

Lemma renderer_size_tracks_viewport_witness :
  rendererSize
    (run pageEnv [Resize 1024 768; AnimationFrame; Resize 320 480;
                  LoadSucceeded mug] (boot pageEnv))
  = Some (320, 480).
Proof.
  apply (renderer_size_tracks_viewport pageEnv
           [Resize 1024 768; AnimationFrame; Resize 320 480;
            LoadSucceeded mug]).
  reflexivity.
Defined.

(** ** The placement control before the model has loaded *)

Lemma settle_core (m : M unit) (w : World) :
  core (settle m w) = core (m w).1.
Proof. unfold settle. destruct (m w) as [w1 [a|e]]; reflexivity. Qed.

Lemma listens_In (h : nat) (w : World) :
  listens h w = true -> In h (clickListeners w).
Proof.
  unfold listens. intros H. apply existsb_exists in H as (h' & Hin & Heq).
  apply Nat.eqb_eq in Heq. subst h'. exact Hin.
Qed.

(** With every element that carries the handler off screen, an event other
    than the success of the load changes neither the elements, nor the
    flag, nor the listeners. *)
Lemma dispatch_hidden (env : Env) (e : Event) (w : World) :
  (forall h, In h (clickListeners w) -> isVisible h w = false) ->
  isLoadSucceeded e = false ->
  core (dispatch env e w) = core w.
Proof.
  intros Hh He. destruct e as [|h|W H|g| |granted]; simpl.
  - rewrite (page_core _ _ (runFrameCallbacks_page env _ _)). reflexivity.
  - destruct (isVisible h w && listens h w) eqn:Hv; [|reflexivity].
    apply andb_true_iff in Hv as [Hv Hl].
    rewrite (Hh h (listens_In h w Hl)) in Hv. discriminate.
  - destruct (resizeListener w); reflexivity.
  - discriminate.
  - destruct (loadPending w); reflexivity.
  - destruct (permissionPending w); [|reflexivity].
    rewrite settle_core. destruct granted; reflexivity.
Qed.

(** X8.  As long as the load has not succeeded, a placement control that is
    off screen stays as it is and cannot be tapped: whatever other events
    arrive, the elements, the listeners and the flag are unchanged.  Only
    the success callback of the load reveals the control. *)
Theorem control_hidden_until_loaded
  (env : Env) (w : World) (es : list Event) :
  (forall h, In h (clickListeners w) -> isVisible h w = false) ->
  forallb (fun e => negb (isLoadSucceeded e)) es = true ->
  elements (run env es w) = elements w /\
  clickListeners (run env es w) = clickListeners w /\
  hasPlaced (run env es w) = hasPlaced w.
Proof.
  revert w. induction es as [|e es IH]; intros w Hh Hes; [auto|].
  simpl in Hes. apply andb_true_iff in Hes as [He Hes].
  apply negb_true_iff in He.
  pose proof (dispatch_hidden env e w Hh He) as Hc.
  unfold core in Hc. injection Hc as Hel _ _ Hp Hl.
  rewrite run_cons. destruct (IH (dispatch env e w)) as (H1 & H2 & H3).
  - intros h Hin. rewrite Hl in Hin. unfold isVisible. rewrite Hel.
    apply (Hh h Hin).
  - exact Hes.
  - rewrite H1, H2, H3. auto.
Qed.

Lemma control_hidden_until_loaded_witness :
  isVisible 0 (boot pageEnv) = false /\
  hasPlaced (run pageEnv [AnimationFrame; Click 0%nat; LoadFailed;
                          Click 0%nat; AnimationFrame] (boot pageEnv))
  = false.
Proof.
  split; [reflexivity|].
  destruct (control_hidden_until_loaded pageEnv (boot pageEnv)
              [AnimationFrame; Click 0%nat; LoadFailed; Click 0%nat;
               AnimationFrame]) as (_ & _ & H).
  - intros h [<-|[]]. reflexivity.
  - reflexivity.
  - rewrite H. reflexivity.
Defined.

(** ** The placement control of the page's own document *)

Lemma findIndex_snoc {A : Type} (p : A -> bool) (l : list A) (x : A) :
  p x = false -> findIndex p (l ++ [x]) = findIndex p l.
Proof.
  intros Hx. induction l as [|y l IH]; simpl; [rewrite Hx; reflexivity|].
  rewrite IH. reflexivity.
Qed.

Lemma findIndex_alter {A : Type} (p : A -> bool) (f : A -> A) (l : list A) :
  forall i,
    (forall x, l !! i = Some x -> p (f x) = p x) ->
    findIndex p (alter f i l) = findIndex p l.
Proof.
  induction l as [|y l IH]; intros i Hf; [reflexivity|].
  destruct i as [|i].
  - change (alter f 0%nat (y :: l)) with (f y :: l). cbn [findIndex].
    rewrite (Hf y eq_refl). reflexivity.
  - change (alter f (S i) (y :: l)) with (y :: alter f i l).
    cbn [findIndex]. rewrite (IH i); [reflexivity|].
    intros x Hx. apply Hf. exact Hx.
Qed.

Lemma findIndex_Some {A : Type} (p : A -> bool) (l : list A) :
  forall i, findIndex p l = Some i ->
            exists x, l !! i = Some x /\ p x = true.
Proof.
  induction l as [|y l IH]; intros i H; simpl in H; [discriminate|].
  destruct (p y) eqn:Hy.
  - injection H as <-. exists y. auto.
  - destruct (findIndex p l) as [j|]; simpl in H; [|discriminate].
    injection H as <-. apply (IH j). reflexivity.
Qed.

(** Putting the canvas into the document does not change what
    getElementById finds: the canvas has no id. *)
Lemma withCanvas_getElementById (env : Env) (s : string) :
  getElementById s (withCanvas env) = getElementById s (document0 env).
Proof.
  unfold getElementById, withCanvas. rewrite findIndex_alter.
  - apply findIndex_snoc. reflexivity.
  - intros x Hx. rewrite lookup_snoc_new in Hx. injection Hx as <-.
    reflexivity.
Qed.

Lemma withCanvas_lookup (env : Env) (h : nat) (e : Element) :
  document0 env !! h = Some e -> withCanvas env !! h = Some e.
Proof.
  intros H. unfold withCanvas. pose proof (lookup_lt_Some _ _ _ H) as Hlt.
  rewrite list_lookup_alter_ne by lia.
  rewrite lookup_app_l by exact Hlt. exact H.
Qed.

Lemma boot_control (env : Env) (h : nat) :
  quiet env ->
  getElementById "tap-to-place" (document0 env) = Some h ->
  placeButton (boot env) = Some h /\
  clickListeners (boot env) = [h] /\
  length (elements (boot env)) = S (length (document0 env)) /\
  exists e,
    document0 env !! h = Some e /\ elements (boot env) !! h = Some e /\
    idAttr e = Some "tap-to-place" /\ isConnected e = true.
Proof.
  intros Hq Hg. rewrite (boot_quiet env Hq). unfold started.
  rewrite withCanvas_getElementById, Hg.
  cbn [placeButton clickListeners elements].
  split; [reflexivity|]. split; [reflexivity|].
  split; [apply withCanvas_length|].
  apply findIndex_Some in Hg as (e & He & Hid). exists e.
  split; [exact He|]. split; [apply withCanvas_lookup; exact He|].
  unfold hasId in Hid. apply andb_true_iff in Hid as [Hc Hid].
  split; [|exact Hc].
  destruct (idAttr e) as [i|]; [|discriminate].
  apply String.eqb_eq in Hid. subst. reflexivity.
Qed.

(** X9.  When the document has an element with id tap-to-place and no
    collaborator call throws, the script uses that element as the placement
    control: it creates no substitute (the canvas is the only element
    added), leaves the element as the page shipped it, and registers the
    click handler on it and on nothing else. *)
Theorem page_control_is_used (env : Env) (h : nat) :
  quiet env ->
  getElementById "tap-to-place" (document0 env) = Some h ->
  placeButton (boot env) = Some h /\
  clickListeners (boot env) = [h] /\
  length (elements (boot env)) = S (length (document0 env)) /\
  exists e,
    document0 env !! h = Some e /\ elements (boot env) !! h = Some e /\
    idAttr e = Some "tap-to-place" /\ isConnected e = true.
Proof. apply boot_control. Qed.

Lemma page_control_is_used_witness :
  getElementById "tap-to-place" (document0 pageEnv) = Some 0%nat /\
  placeButton (boot pageEnv) = Some 0%nat /\
  clickListeners (boot pageEnv) = [0%nat].
Proof.
  split; [reflexivity|].
  destruct (page_control_is_used pageEnv 0) as (H1 & H2 & _).
  - split; [reflexivity | intros l c; reflexivity].
  - reflexivity.
  - split; [exact H1 | exact H2].
Defined.

Lemma boot_quiet_state (env : Env) :
  quiet env ->
  loadPending (boot env) = true /\
  permissionPending (boot env) = true /\
  hasPlaced (boot env) = false /\
  offsetRequests (log (boot env)) = [(0, 0, -2)] /\
  groupChildren (boot env)
  = [dirLight; ambientLight; plane (innerWidth0 env) (innerHeight0 env)].
Proof.
  intros Hq. rewrite (boot_quiet env Hq). unfold started. simpl.
  repeat split; reflexivity.
Qed.

(** X10.  From the shipped page to the placement, when no collaborator
    call throws: the success of the load puts the page's control on
    screen; a tap on it then sets the flag and takes the control off
    screen; and from then on, whatever events arrive, the only offset ever
    requested remains the one of the very first frame. *)
Theorem tap_after_load_places
  (env : Env) (h : nat) (g : Object3D) (es : list Event) :
  quiet env ->
  getElementById "tap-to-place" (document0 env) = Some h ->
  let w1 := dispatch env (LoadSucceeded g) (boot env) in
  let w2 := dispatch env (Click h) w1 in
  isVisible h w1 = true /\
  hasPlaced w2 = true /\
  isVisible h w2 = false /\
  offsetRequests (log (run env es w2)) = [(0, 0, -2)].
Proof.
  intros Hq Hg. cbv zeta.
  destruct (boot_control env h Hq Hg) as (Hb & Hl & _ & e & _ & He & _ & Hc).
  destruct (boot_quiet_state env Hq) as (Hp & _ & _ & Ho & _).
  remember (boot env) as w0 eqn:E. clear E.
  assert (E1 : dispatch env (LoadSucceeded g) w0 =
               set_groupChildren (groupChildren w0 ++ [placedModel g])
                 (set_elements
                    (alter (set_styleDisplay "block") h (elements w0))
                    (set_loadPending false w0))).
  { cbn [dispatch]. rewrite Hp. unfold settle.
    rewrite (loadSuccess_unfold _ h) by exact Hb. reflexivity. }
  rewrite E1.
  set (w1 := set_groupChildren _ _) in *.
  assert (Hv : isVisible h w1 = true).
  { unfold isVisible, w1. simpl. rewrite list_lookup_alter_eq, He. simpl.
    unfold visible. simpl. rewrite Hc. reflexivity. }
  assert (Hls : listens h w1 = true).
  { unfold listens, w1. simpl. rewrite Hl. simpl.
    rewrite Nat.eqb_refl. reflexivity. }
  assert (E2 : dispatch env (Click h) w1 =
               set_elements
                 (alter (set_isConnected false) h (elements w1))
                 (set_hasPlaced true w1)).
  { cbn [dispatch]. rewrite Hv, Hls. simpl. unfold settle.
    rewrite (clickHandler_unfold w1 h) by exact Hb. reflexivity. }
  rewrite E2. split; [exact Hv|]. split; [reflexivity|].
  split; [apply removed_not_visible|].
  destruct (run_placed env es
              (set_elements
                 (alter (set_isConnected false) h (elements w1))
                 (set_hasPlaced true w1)) eq_refl) as [_ Hr].
  rewrite Hr. exact Ho.
Qed.

Lemma tap_after_load_places_witness :
  getElementById "tap-to-place" (document0 pageEnv) = Some 0%nat /\
  offsetRequests
    (log (run pageEnv [AnimationFrame; AnimationFrame]
            (dispatch pageEnv (Click 0%nat)
               (dispatch pageEnv (LoadSucceeded mug) (boot pageEnv)))))
  = [(0, 0, -2)].
Proof.
  split; [reflexivity|].
  apply (tap_after_load_places pageEnv 0 mug [AnimationFrame; AnimationFrame]).
  - split; [reflexivity | intros l c; reflexivity].
  - reflexivity.
Defined.

(** ** The permission request *)

(** As [dispatch_preserves], for an invariant that the continuation of the
    permission request has to keep only while the request is pending. *)
Lemma dispatch_preserves_pending (env : Env) (P : World -> Prop) :
  hostBlind P ->
  (forall W H w, P w ->
     P (if resizeListener w
        then settle resizeHandler (set_viewport W H w)
        else set_viewport W H w)) ->
  preserves P (render env) ->
  preserves P clickHandler ->
  (forall g, preserves P (loadSuccess g)) ->
  preserves P loadError ->
  (forall granted w, P w -> permissionPending w = true ->
     P (settle (permissionThen env granted) (set_permissionPending false w))) ->
  forall e w, P w -> P (dispatch env e w).
Proof.
  intros Hb Hv Hr Hc Hs He Hp e w H.
  assert (Hsettle : forall m w, preserves P m -> P w -> P (settle m w)).
  { intros m w0 Hm H0. apply preserves_settle; [|exact Hm|exact H0].
    intros w1 u H1. apply (Hb w1 H1). }
  destruct e as [|h|W H0|g| |granted]; simpl.
  - assert (Hn : forall n w, P w -> P (runFrameCallbacks env n w)).
    { induction n as [|n IH]; intros w0 H0; simpl; [exact H0|].
      apply IH, Hsettle; assumption. }
    apply Hn. apply (Hb w H).
  - destruct (isVisible h w && listens h w); [|exact H].
    apply Hsettle; assumption.
  - apply Hv. exact H.
  - destruct (loadPending w); [|exact H].
    apply Hsettle; [apply Hs|]. apply (Hb w H).
  - destruct (loadPending w); [|exact H].
    apply Hsettle; [exact He|]. apply (Hb w H).
  - destruct (permissionPending w) eqn:Hpp; [|exact H].
    apply Hp; assumption.
Qed.

Lemma counts_record (c : Call) (w : World) :
  isCameraStart c || isPermissionDeniedUI c = false ->
  cameraStarts (record c w) = cameraStarts w /\
  denialNotices (record c w) = denialNotices w.
Proof.
  intros H. apply orb_false_iff in H as [H1 H2].
  unfold cameraStarts, denialNotices, record. simpl.
  rewrite !countCalls_app. unfold countCalls. simpl. rewrite H1, H2.
  simpl. lia.
Qed.

Lemma answered_record (a b : nat) (c : Call) (w : World) :
  isCameraStart c || isPermissionDeniedUI c = false ->
  answered a b w -> answered a b (record c w).
Proof.
  intros Hc (Hp & Ha & Hb). destruct (counts_record c w Hc) as [E1 E2].
  unfold answered. rewrite E1, E2. auto.
Qed.

Lemma permissionInv_record (c : Call) (w : World) :
  isCameraStart c || isPermissionDeniedUI c = false ->
  permissionInv w -> permissionInv (record c w).
Proof.
  intros Hc (H1 & H2). destruct (counts_record c w Hc) as [E1 E2].
  unfold permissionInv. rewrite E1, E2. auto.
Qed.

Lemma unasked_record (c : Call) (w : World) :
  isCameraStart c || isPermissionDeniedUI c = false ->
  (cameraStarts w + denialNotices w = 0)%nat ->
  (cameraStarts (record c w) + denialNotices (record c w) = 0)%nat.
Proof.
  intros Hc H. destruct (counts_record c w Hc) as [E1 E2].
  rewrite E1, E2. exact H.
Qed.

(** The script itself neither starts the camera nor shows the denial
    notice. *)
Lemma main_unasked (env : Env) :
  preserves (fun w => (cameraStarts w + denialNotices w = 0)%nat) (main env).
Proof. unfold main. preserves_plain; log_only unasked_record. Qed.

Lemma dispatch_answered (env : Env) (a b : nat) (e : Event) (w : World) :
  answered a b w -> answered a b (dispatch env e w).
Proof.
  apply (dispatch_preserves_pending env (answered a b)).
  - intros w0 H. repeat split; intros; first [exact H | apply H].
  - intros W H w0 H0. destruct (resizeListener w0); exact H0.
  - unfold render. preserves_plain; log_only (answered_record a b).
  - preserves_plain; log_only (answered_record a b).
  - intros g. preserves_plain; log_only (answered_record a b).
  - preserves_plain; log_only (answered_record a b).
  - intros granted w0 (Hp & _) Hp'. congruence.
Qed.

Lemma permission_settled (env : Env) (granted : bool) (w : World) :
  let w' := settle (permissionThen env granted)
              (set_permissionPending false w) in
  permissionPending w' = false /\
  cameraStarts w' = (cameraStarts w + (if granted then 1 else 0))%nat /\
  denialNotices w' = (denialNotices w + (if granted then 0 else 1))%nat.
Proof.
  cbv zeta. unfold settle, permissionThen, call.
  destruct granted; simpl;
    match goal with
    | |- context [fails env ?l ?c] => destruct (fails env l c)
    end; simpl; unfold cameraStarts, denialNotices; simpl;
    rewrite !countCalls_app; unfold countCalls; simpl;
    repeat split; lia.
Qed.

Lemma dispatch_permissionInv (env : Env) (e : Event) (w : World) :
  permissionInv w -> permissionInv (dispatch env e w).
Proof.
  apply (dispatch_preserves_pending env permissionInv).
  - intros w0 H. repeat split; intros;
      first [exact H | discriminate | solve [apply H; assumption]].
  - intros W H w0 H0. destruct (resizeListener w0); exact H0.
  - unfold render. preserves_plain; log_only permissionInv_record.
  - preserves_plain; log_only permissionInv_record.
  - intros g. preserves_plain; log_only permissionInv_record.
  - preserves_plain; log_only permissionInv_record.
  - intros granted w0 (H1 & _) Hp.
    destruct (permission_settled env granted w0) as (E0 & E1 & E2).
    specialize (H1 Hp). unfold permissionInv.
    rewrite E0, E1, E2. split; [discriminate|].
    destruct granted; lia.
Qed.

Lemma boot_permissionInv (env : Env) : permissionInv (boot env).
Proof.
  assert (H : (cameraStarts (boot env) + denialNotices (boot env) = 0)%nat).
  { unfold boot.
    apply (preserves_settle
             (fun w => (cameraStarts w + denialNotices w = 0)%nat)).
    - intros w u H. exact H.
    - apply main_unasked.
    - reflexivity. }
  split; [intros _; exact H | lia].
Qed.

(** X11.  Whatever the environment and the events, the page starts the
    camera or shows the notice of a denied permission at most once
    altogether, and does neither while the permission request is
    pending. *)
Theorem permission_acted_on_once (env : Env) (es : list Event) :
  let w := run env es (boot env) in
  (cameraStarts w + denialNotices w <= 1)%nat /\
  (permissionPending w = true ->
   (cameraStarts w + denialNotices w = 0)%nat).
Proof.
  cbv zeta.
  destruct (run_preserves env permissionInv (dispatch_permissionInv env)
              es _ (boot_permissionInv env)) as [H1 H2].
  auto.
Qed.

(** X12.  When the answer to the pending permission request arrives, the
    page acts on it once and for all: granted, it starts the camera once
    and never shows the denial notice; denied, it shows the notice once and
    never starts the camera, whatever events follow. *)
Theorem permission_answer_is_final
  (env : Env) (es1 es2 : list Event) (granted : bool) :
  let w := run env es1 (boot env) in
  permissionPending w = true ->
  let w' := run env (PermissionResolved granted :: es2) w in
  cameraStarts w' = (if granted then 1%nat else O) /\
  denialNotices w' = (if granted then O else 1%nat).
Proof.
  cbv zeta. intros Hp. rewrite run_cons.
  destruct (run_preserves env permissionInv (dispatch_permissionInv env)
              es1 _ (boot_permissionInv env)) as [H0 _].
  specialize (H0 Hp).
  set (w := run env es1 (boot env)) in *.
  assert (Ha : answered (if granted then 1%nat else O)
                        (if granted then O else 1%nat)
                 (dispatch env (PermissionResolved granted) w)).
  { cbn [dispatch]. rewrite Hp.
    destruct (permission_settled env granted w) as (E0 & E1 & E2).
    unfold answered. rewrite E0, E1, E2.
    destruct granted; repeat split; lia. }
  destruct (run_preserves env _ (dispatch_answered env _ _) es2 _ Ha)
    as (_ & Hs & Hd).
  auto.
Qed.

Lemma permission_answer_is_final_witness :
  permissionPending (run pageEnv [AnimationFrame] (boot pageEnv)) = true /\
  cameraStarts
    (run pageEnv [PermissionResolved false; AnimationFrame;
                  PermissionResolved true]
       (run pageEnv [AnimationFrame] (boot pageEnv))) = O.
Proof.
  split; [reflexivity|].
  apply (permission_answer_is_final pageEnv [AnimationFrame]
           [AnimationFrame; PermissionResolved true] false).
  reflexivity.
Defined.

Lemma permission_acted_on_once_witness :
  permissionPending (run pageEnv [AnimationFrame; LoadFailed] (boot pageEnv))
  = true /\
  (cameraStarts (run pageEnv [AnimationFrame; LoadFailed] (boot pageEnv)) +
   denialNotices (run pageEnv [AnimationFrame; LoadFailed] (boot pageEnv))
   = 0)%nat.
Proof.
  split; [reflexivity|].
  destruct (permission_acted_on_once pageEnv [AnimationFrame; LoadFailed])
    as [_ H].
  apply H. reflexivity.
Defined.

(** ** The children of the anchor group *)





(** ** The script from its first to its last statement *)



(** ** The script's own reads are always bound *)


















Lemma controlBound_page (w1 w2 : World) :
  page w1 = page w2 -> controlBound w1 -> controlBound w2.
Proof.
  unfold page, controlBound. intros [= _ _ Hb _ _ _ _ _ Hc _ Hl _].
  rewrite Hb, Hc, Hl. intros H. exact H.
Qed.






(** ** The control after the placement *)

Lemma placedMeansRemoved_page (w1 w2 : World) :
  page w1 = page w2 -> placedMeansRemoved w1 -> placedMeansRemoved w2.
Proof.
  unfold page, placedMeansRemoved. intros [= He _ Hb _ _ _ _ Hp _ _ _ _].
  rewrite He, Hb, Hp. intros H. exact H.
Qed.

Lemma clickHandler_removes : preserves placedMeansRemoved clickHandler.
Proof.
  intros w _. destruct (placeButton w) as [b|] eqn:Hb.
  - rewrite (clickHandler_unfold w b Hb). intros _ b' e Hb' He.
    simpl in Hb', He. rewrite Hb in Hb'. injection Hb' as <-.
    rewrite list_lookup_alter_eq in He.
    destruct (elements w !! b); simpl in He; [|discriminate].
    injection He as <-. reflexivity.
  - unfold_script. simpl. rewrite Hb. simpl. intros _ b' e Hb'.
    simpl in Hb'. congruence.
Qed.

Lemma loadSuccess_keeps_removed (g : Object3D) :
  preserves placedMeansRemoved (loadSuccess g).
Proof.
  intros w H. destruct (placeButton w) as [b|] eqn:Hb.
  - rewrite (loadSuccess_unfold w b g Hb). intros Hp b' e Hb' He.
    simpl in Hp, Hb', He. rewrite Hb in Hb'. injection Hb' as <-.
    rewrite list_lookup_alter_eq in He.
    destruct (elements w !! b) as [e0|] eqn:He0; simpl in He;
      [|discriminate].
    injection He as <-. simpl. apply (H Hp b e0 Hb He0).
  - unfold_script. rewrite Hb. exact H.
Qed.

Lemma dispatch_removed (env : Env) (e : Event) (w : World) :
  placedMeansRemoved w -> placedMeansRemoved (dispatch env e w).
Proof.
  apply (dispatch_preserves env placedMeansRemoved).
  - intros w0 H. repeat split; intros; exact H.
  - intros W H w0 H0. destruct (resizeListener w0); exact H0.
  - intros w0 H0. apply (placedMeansRemoved_page w0); [|exact H0].
    symmetry. apply render_page.
  - exact clickHandler_removes.
  - exact loadSuccess_keeps_removed.
  - preserves_plain; intros ? H; exact H.
  - intros granted. preserves_plain; intros ? H; exact H.
Qed.

(** X16.  Whatever the environment and the events, once the placement has
    happened the placement control is off screen for good.  In particular a
    load that succeeds after the tap sets the display of a control that is
    no longer in the document, and does not bring it back. *)
Theorem placed_control_stays_removed
  (env : Env) (es : list Event) (b : nat) :
  let w := run env es (boot env) in
  hasPlaced w = true -> placeButton w = Some b -> isVisible b w = false.
Proof.
  cbv zeta. intros Hp Hb.
  assert (H : placedMeansRemoved (run env es (boot env))).
  { apply (run_preserves env placedMeansRemoved (dispatch_removed env)).
    intros Hp0. rewrite boot_unplaced in Hp0. discriminate. }
  unfold isVisible. destruct (elements _ !! b) as [e|] eqn:He; [|reflexivity].
  unfold visible. rewrite (H Hp b e Hb He). reflexivity.
Qed.

Lemma placed_control_stays_removed_witness :
  let w := run eagerEnv [Click 0%nat; AnimationFrame; LoadSucceeded mug]
             (boot eagerEnv) in
  hasPlaced w = true /\ placeButton w = Some 0%nat /\
  (exists e, elements w !! 0%nat = Some e /\ styleDisplay e = Some "block") /\
  isVisible 0 w = false.
Proof.
  cbv zeta. split; [reflexivity|]. split; [reflexivity|].
  split; [eexists; split; reflexivity|].
  apply (placed_control_stays_removed eagerEnv
           [Click 0%nat; AnimationFrame; LoadSucceeded mug] 0);
    reflexivity.
Defined.
